(** * The DuckDB dialect compiler of ibis: rules and their properties

    A shallow embedding of [ibis/backends/duckdb/compiler.py].  The
    compiler maps one operation-graph node, whose children are already
    target expressions, to a sqlglot expression or raises.  The first
    half of this file holds the embedding (Python exceptions, the ibis
    units and datatypes the rules inspect, the sqlglot expression tree,
    the rules themselves, and a reference semantics of the DuckDB
    functions the rules emit); the second half holds the theorems. *)

From Stdlib Require Import ZArith Lia Ascii String.
From stdpp Require Import base option list strings pretty gmap.

Local Open Scope string_scope.
Local Open Scope Z_scope.
Set Warnings "-register-all".

(** ** Python exceptions and fallible results *)

(** The exception classes the rules can raise: two by an explicit
    [raise], one ([KeyError]) by subscripting a dict with a missing key,
    and two from inside [math.isfinite], which converts its argument to a
    float: [ValueError] on a signalling-NaN decimal and [OverflowError] on
    an [int] too large for a float (their messages are CPython's and are
    not kept). *)
Inductive exn : Type :=
| UnsupportedOperationError (msg : string)
| NotImplementedError (msg : string)
| KeyError (key : string)
| ValueError
| OverflowError.

Inductive result (A : Type) : Type :=
| Ok (a : A)
| Raise (e : exn).
Arguments Ok {A} a.
Arguments Raise {A} e.

Definition bind {A B : Type} (r : result A) (k : A -> result B) : result B :=
  match r with
  | Ok a => k a
  | Raise e => Raise e
  end.

Notation "'let*' x ':=' r 'in' k" := (bind r (fun x => k))
  (at level 10, x name, r at level 100, k at level 200).

(** [d[k]] on a Python dict with string keys. *)
Definition subscript {V : Type} (d : gmap string V) (k : string) : result V :=
  match d !! k with
  | Some v => Ok v
  | None => Raise (KeyError k)
  end.

Definition is_unsupported {A : Type} (r : result A) : bool :=
  match r with
  | Raise (UnsupportedOperationError _) => true
  | _ => false
  end.

(** ** Temporal units ([ibis.common.temporal]) *)

(** Modelled from the spec: the unit enumerations live in
    [ibis/common/temporal.py], which is not under src/.  The rules read
    three properties of a unit: [short] (the enum value), [singular]
    (the lower-cased member name) and [plural] (singular plus an s). *)
Inductive IntervalUnit : Type :=
| YEAR | QUARTER | MONTH | WEEK | DAY | HOUR | MINUTE | SECOND
| MILLISECOND | MICROSECOND | NANOSECOND.

(** Modelled from the spec: the resolutions of a UNIX timestamp, from the
    same missing module. *)
Inductive TimestampUnit : Type :=
| TS_SECOND | TS_MILLISECOND | TS_MICROSECOND | TS_NANOSECOND.

#[global] Instance IntervalUnit_eq_dec : EqDecision IntervalUnit.
Proof. solve_decision. Defined.

#[global] Instance TimestampUnit_eq_dec : EqDecision TimestampUnit.
Proof. solve_decision. Defined.

Class Unit (U : Type) : Type := {
  short : U -> string;
  singular : U -> string
}.

Definition plural {U : Type} `{Unit U} (u : U) : string := singular u ++ "s".

#[export] Instance IntervalUnit_Unit : Unit IntervalUnit := {|
  short u :=
    match u with
    | YEAR => "Y" | QUARTER => "Q" | MONTH => "M" | WEEK => "W"
    | DAY => "D" | HOUR => "h" | MINUTE => "m" | SECOND => "s"
    | MILLISECOND => "ms" | MICROSECOND => "us" | NANOSECOND => "ns"
    end;
  singular u :=
    match u with
    | YEAR => "year" | QUARTER => "quarter" | MONTH => "month"
    | WEEK => "week" | DAY => "day" | HOUR => "hour" | MINUTE => "minute"
    | SECOND => "second" | MILLISECOND => "millisecond"
    | MICROSECOND => "microsecond" | NANOSECOND => "nanosecond"
    end
|}.

#[export] Instance TimestampUnit_Unit : Unit TimestampUnit := {|
  short u :=
    match u with
    | TS_SECOND => "s" | TS_MILLISECOND => "ms"
    | TS_MICROSECOND => "us" | TS_NANOSECOND => "ns"
    end;
  singular u :=
    match u with
    | TS_SECOND => "second" | TS_MILLISECOND => "millisecond"
    | TS_MICROSECOND => "microsecond" | TS_NANOSECOND => "nanosecond"
    end
|}.

(** ** Datatypes ([ibis.expr.datatypes]) *)

(** Modelled from the spec: the datatype classes are declared in
    [ibis/expr/datatypes], not under src/.  Only what the rules inspect is
    kept: the kind, the nullability flag, the unit of an interval and the
    timezone of a timestamp. *)
Module dt.
Inductive DataType : Type :=
| Boolean (nullable : bool)
| Int8 (nullable : bool)
| Int16 (nullable : bool)
| Int32 (nullable : bool)
| Int64 (nullable : bool)
| Float32 (nullable : bool)
| Float64 (nullable : bool)
| Decimal (nullable : bool)
| String (nullable : bool)
| Binary (nullable : bool)
| UUID (nullable : bool)
| Date (nullable : bool)
| Time (nullable : bool)
| Timestamp (timezone : option string) (nullable : bool)
| Interval (unit : IntervalUnit) (nullable : bool).

Definition int32 : DataType := Int32 true.
Definition float32 : DataType := Float32 true.
Definition timestamp : DataType := Timestamp None true.

Definition nullable (t : DataType) : bool :=
  match t with
  | Boolean n | Int8 n | Int16 n | Int32 n | Int64 n | Float32 n
  | Float64 n | Decimal n | String n | Binary n | UUID n | Date n
  | Time n | Timestamp _ n | Interval _ n => n
  end.

Definition is_boolean (t : DataType) : bool :=
  match t with Boolean _ => true | _ => false end.
Definition is_integer (t : DataType) : bool :=
  match t with Int8 _ | Int16 _ | Int32 _ | Int64 _ => true | _ => false end.
Definition is_decimal (t : DataType) : bool :=
  match t with Decimal _ => true | _ => false end.
Definition is_floating (t : DataType) : bool :=
  match t with Float32 _ | Float64 _ => true | _ => false end.
Definition is_numeric (t : DataType) : bool :=
  is_integer t || is_floating t || is_decimal t.
Definition is_interval (t : DataType) : bool :=
  match t with Interval _ _ => true | _ => false end.
Definition is_timestamp (t : DataType) : bool :=
  match t with Timestamp _ _ => true | _ => false end.
Definition is_time (t : DataType) : bool :=
  match t with Time _ => true | _ => false end.
Definition is_uuid (t : DataType) : bool :=
  match t with UUID _ => true | _ => false end.
Definition is_binary (t : DataType) : bool :=
  match t with Binary _ => true | _ => false end.

(** The least and greatest value of a fixed-width signed integer type. *)
Definition bounds (t : DataType) : option (Z * Z) :=
  match t with
  | Int8 _ => Some (- 2 ^ 7, 2 ^ 7 - 1)
  | Int16 _ => Some (- 2 ^ 15, 2 ^ 15 - 1)
  | Int32 _ => Some (- 2 ^ 31, 2 ^ 31 - 1)
  | Int64 _ => Some (- 2 ^ 63, 2 ^ 63 - 1)
  | _ => None
  end.

(** Whether an integer can be held by a type; a type without integer
    bounds puts no limit on it. *)
Definition in_range (t : DataType) (n : Z) : bool :=
  match bounds t with
  | Some (lo, hi) => (lo <=? n) && (n <=? hi)
  | None => true
  end.
End dt.

(** ** Target expressions ([sqlglot.expressions]) *)

(** The part of sqlglot's expression tree that the rules build.  A call
    made through the function-builder facade [self.f] is kept as the
    function name with its argument list; Python operators on expressions
    ([+], [*], [<], [>=], unary [-], [.is_], [.neq]) give the binary and
    unary nodes.  Grouping is carried by the tree itself, so sqlglot's
    [Paren] wrappers are not represented. *)
Inductive expr : Type :=
| Null
| Literal_number (n : Z)
| Literal_real (text : string)
| Literal_string (s : string)
| Literal_bool (b : bool)
| Literal_seconds (second microsecond : Z)
| Column (name : string)
| Identifier (name : string)
| Func (name : string) (args : list expr)
| If (this true false : expr)
| Is (this expression : expr)
| Add (this expression : expr)
| Mul (this expression : expr)
| LT (this expression : expr)
| GTE (this expression : expr)
| NEQ (this expression : expr)
| Neg (this : expr)
| Cast (this : expr) (to : dt.DataType)
| TryCast (this : expr) (to : dt.DataType)
| Filter (this expression : expr)
| Where (this : expr)
| Lambda (this : expr) (expressions : list expr)
| UnixToTime (this : expr)
| SgeInterval (this : expr) (unit : string).

Module sge.
(** A Python value handed to a builder is either already an expression or
    a Python [int], which [sge.convert] turns into a numeric literal. *)
Inductive operand : Type :=
| PyInt (n : Z)
| Sql (e : expr).

Definition convert (o : operand) : expr :=
  match o with
  | PyInt n => Literal_number n
  | Sql e => e
  end.

(** [o + k] for a Python int [k]: integer addition on a Python int, an
    [Add] node on an expression. *)
Definition add_int (o : operand) (k : Z) : operand :=
  match o with
  | PyInt n => PyInt (n + k)
  | Sql e => Sql (Add e (Literal_number k))
  end.
End sge.

(** ** Python literal values *)

Module py.
(** A numeric literal: an [int], or a [float] or [decimal.Decimal] carried
    by what the rules ask of it, namely [str(value)] and
    [math.isfinite(value)].  Binary floating point itself is not
    modelled.  A signalling-NaN decimal is kept apart, because
    [math.isfinite] has no answer for it. *)
Inductive number : Type :=
| PyInt (n : Z)
| PyFloat (repr : string) (finite : bool)
| PyDecimal (repr : string) (finite : bool)
| PySignalingNaN (repr : string).

Record time : Type := {
  t_hour : Z; t_minute : Z; t_second : Z; t_microsecond : Z
}.

Record datetime : Type := {
  year : Z; month : Z; day : Z;
  hour : Z; minute : Z; second : Z; microsecond : Z
}.

(** The Python type of a literal's [value], fixed by its datatype (field
    values reach the compiler validated against the node's type). *)
Definition value_of (t : dt.DataType) : Type :=
  match t with
  | dt.Interval _ _ => Z
  | dt.UUID _ => string
  | dt.Binary _ => list N
  | dt.Int8 _ | dt.Int16 _ | dt.Int32 _ | dt.Int64 _
  | dt.Float32 _ | dt.Float64 _ | dt.Decimal _ => number
  | dt.Time _ => time
  | dt.Timestamp _ _ => datetime
  | dt.Boolean _ => bool
  | dt.String _ => string
  | dt.Date _ => Z
  end.

Definition str (x : number) : string :=
  match x with
  | PyInt n => pretty n
  | PyFloat r _ | PyDecimal r _ | PySignalingNaN r => r
  end.

(** [math.isfinite(x)].  The argument is first converted to a float: an
    [int] whose nearest double would be [2 ** 1024] or beyond raises
    [OverflowError], and a signalling-NaN decimal raises [ValueError]. *)
Definition isfinite (x : number) : result bool :=
  match x with
  | PyInt n =>
      if Z.abs n <? 2 ^ 1024 - 2 ^ 970 then Ok true else Raise OverflowError
  | PyFloat _ b | PyDecimal _ b => Ok b
  | PySignalingNaN _ => Raise ValueError
  end.

Definition hexdigit (d : N) : string :=
  String.String (default "0"%char
    (String.get (N.to_nat d) "0123456789abcdef")) "".

(** ["\\x{:02x}".format(b)]: a backslash, an x and two lower-case hex
    digits. *)
Definition format_x02 (b : N) : string :=
  "\x" ++ hexdigit (b / 16)%N ++ hexdigit (b mod 16)%N.

Definition join (parts : list string) : string :=
  foldr String.append "" parts.

Definition upper_char (c : ascii) : ascii :=
  let n := nat_of_ascii c in
  if ((97 <=? n) && (n <=? 122))%nat then ascii_of_nat (n - 32) else c.

Fixpoint upper (s : string) : string :=
  match s with
  | EmptyString => EmptyString
  | String.String c s' => String.String (upper_char c) (upper s')
  end.

(** [repr] of a [str] that holds no quote or escape. *)
Definition repr (s : string) : string := "'" ++ s ++ "'".
End py.

(** ** The compiler ([DuckDBCompiler]) *)

Definition _INTERVAL_SUFFIXES : gmap string string :=
  list_to_map [
    ("ms", "milliseconds");
    ("us", "microseconds");
    ("s", "seconds");
    ("m", "minutes");
    ("h", "hours");
    ("D", "days");
    ("M", "months");
    ("Y", "years")
  ].

Section Rules.
(** [str(self.dialect)], which three error messages interpolate.  The
    class is sqlglot's [DuckDB]; the text Python prints for it is not
    fixed by this file, so the rules take it from [self]. *)
Variable dialect : string.

Definition NULL : expr := Null.

(** Modelled from the spec: the expression builder facade ([self.f],
    [self.if_], [self.cast]) is inherited from the generic base compiler,
    which is not under src/.  It exposes function-call construction,
    conditional construction and cast construction against the target
    expression tree. *)
Definition f (name : string) (args : list expr) : expr := Func name args.

Definition if_ (cond true_ false_ : expr) : expr := If cond true_ false_.

Definition cast (arg : expr) (to : dt.DataType) : expr := Cast arg to.

Definition _aggregate (funcname : string) (args : list expr)
    (where_ : option expr) : expr :=
  let expr := f funcname args in
  match where_ with
  | Some w => Filter expr (Where w)
  | None => expr
  end.

(** Modelled from the spec: [self.agg], the aggregate-with-filter builder
    of the base compiler (not under src/), which hands the function name,
    the arguments and the [where] predicate to [_aggregate]. *)
Definition agg (funcname : string) (args : list expr)
    (where_ : option expr) : expr :=
  _aggregate funcname args where_.

Definition visit_ArrayDistinct (arg : expr) : expr :=
  if_ (Is arg NULL)
      NULL
      (Add (f "list_distinct" [arg])
           (if_ (LT (f "list_count" [arg]) (f "len" [arg]))
                (f "array" [NULL])
                (f "array" []))).

Definition visit_ArrayIndex (op_index_dtype : dt.DataType)
    (arg index : expr) : expr :=
  f "list_extract"
    [arg; Add index (cast (GTE index (Literal_number 0)) op_index_dtype)].

Definition _neg_idx_to_pos (array idx : expr) : expr :=
  let arg_length := f "array_size" [array] in
  if_ (GTE idx (Literal_number 0))
      idx
      (Add arg_length (f "greatest" [idx; Neg arg_length])).

Definition visit_ArraySlice (arg : expr) (start stop : option expr) : expr :=
  let arg_length := f "len" [arg] in
  let start :=
    match start with
    | None => sge.PyInt 0
    | Some start =>
        sge.Sql (f "least" [arg_length; _neg_idx_to_pos arg start])
    end in
  let stop :=
    match stop with
    | None => arg_length
    | Some stop => _neg_idx_to_pos arg stop
    end in
  f "list_slice" [arg; sge.convert (sge.add_int start 1); stop].

Definition visit_ArrayUnion (left right : expr) : expr :=
  let arg := f "list_concat" [left; right] in
  if_ (Is arg NULL)
      NULL
      (Add (f "list_distinct" [arg])
           (if_ (LT (f "list_count" [arg]) (f "len" [arg]))
                (f "array" [NULL])
                (f "array" []))).

Definition visit_MapGet (arg key default : expr) : expr :=
  f "ifnull"
    [f "list_extract" [f "element_at" [arg; key]; Literal_number 1]; default].

Definition visit_MapContains (arg key : expr) : expr :=
  NEQ (f "len" [f "element_at" [arg; key]]) (Literal_number 0).

Definition visit_IntervalFromInteger (arg : expr) (unit : IntervalUnit)
    : result expr :=
  if (short unit =? "ns")%string then
    Raise (UnsupportedOperationError
             (dialect ++ " doesn't support nanosecond interval resolutions"))
  else if (singular unit =? "week")%string then
    Ok (f "to_days" [Mul arg (Literal_number 7)])
  else
    Ok (f ("to_" ++ plural unit) [arg]).

Definition visit_TimestampFromUNIX (arg : expr) (unit : TimestampUnit)
    : result expr :=
  let unit := short unit in
  if (unit =? "ms")%string then
    Ok (f "epoch_ms" [arg])
  else if (unit =? "s")%string then
    Ok (UnixToTime arg)
  else
    Raise (UnsupportedOperationError
             (py.repr unit ++ " unit is not supported!")).

Definition visit_Cast (op_arg_dtype : dt.DataType) (arg : expr)
    (to : dt.DataType) : result expr :=
  match to with
  | dt.Interval unit _ =>
      let* suffix := subscript _INTERVAL_SUFFIXES (short unit) in
      Ok (f ("to_" ++ suffix) [Cast arg dt.int32])
  | _ =>
      if dt.is_timestamp to && dt.is_integer op_arg_dtype then
        Ok (f "to_timestamp" [arg])
      else
        Ok (cast arg to)
  end.

Definition convert_number (x : py.number) : expr :=
  match x with
  | py.PyInt n => Literal_number n
  | py.PyFloat r _ | py.PyDecimal r _ | py.PySignalingNaN r => Literal_real r
  end.

(** The call built by the timestamp branch of the literal rule: six
    components, then the timezone (and the tz constructor) when the type
    carries one. *)
Definition make_timestamp_call (value : py.datetime) (tz : option string)
    : expr :=
  let args := [
    Literal_number (py.year value);
    Literal_number (py.month value);
    Literal_number (py.day value);
    Literal_number (py.hour value);
    Literal_number (py.minute value);
    Literal_seconds (py.second value) (py.microsecond value)
  ] in
  match tz with
  | Some tz => f "make_timestamptz" (args ++ [Literal_string tz])
  | None => f "make_timestamp" args
  end.

(** The rule returns [None] for a datatype it has no special rendering
    for; the base compiler then falls back to its own literal syntax. *)
Definition visit_NonNullLiteral (dtype : dt.DataType)
    : py.value_of dtype -> result (option expr) :=
  match dtype return py.value_of dtype -> result (option expr) with
  | dt.Interval unit _ => fun value =>
      if (short unit =? "ns")%string then
        Raise (UnsupportedOperationError
                 (dialect ++ " doesn't support nanosecond interval resolutions"))
      else
        Ok (Some (SgeInterval (Literal_string (pretty value))
                              (py.upper (singular unit))))
  | dt.UUID _ => fun value =>
      Ok (Some (cast (Literal_string value) dtype))
  | dt.Binary _ => fun value =>
      Ok (Some (cast (Literal_string (py.join (map py.format_x02 value)))
                     dtype))
  | dt.Int8 _ | dt.Int16 _ | dt.Int32 _ | dt.Int64 _
  | dt.Float32 _ | dt.Float64 _ | dt.Decimal _ => fun value =>
      let* finite := py.isfinite value in
      if negb finite then
        Ok (Some (cast (Literal_string (py.str value))
                       (if dt.is_decimal dtype then dt.float32 else dtype)))
      else
        Ok (Some (cast (convert_number value) dtype))
  | dt.Time _ => fun value =>
      Ok (Some (f "make_time" [
                  Literal_number (py.t_hour value);
                  Literal_number (py.t_minute value);
                  Literal_seconds (py.t_second value) (py.t_microsecond value)
                ]))
  | dt.Timestamp tz _ => fun value =>
      Ok (Some (make_timestamp_call value tz))
  | dt.Boolean _ | dt.String _ | dt.Date _ => fun _ => Ok None
  end.

Definition visit_Correlation (op_left_dtype op_right_dtype : dt.DataType)
    (left right : expr) (how : string) (where_ : option expr)
    : result expr :=
  if (how =? "sample")%string then
    Raise (UnsupportedOperationError
             (dialect ++ " only implements `pop` correlation coefficient"))
  else
    let left :=
      if dt.is_boolean op_left_dtype
      then cast left (dt.Int32 (dt.nullable op_left_dtype))
      else left in
    let right :=
      if dt.is_boolean op_right_dtype
      then cast right (dt.Int32 (dt.nullable op_right_dtype))
      else right in
    Ok (agg "corr" [left; right] where_).

Definition visit_Quantile (op_arg_dtype : dt.DataType)
    (arg quantile : expr) (where_ : option expr) : expr :=
  let suffix := if dt.is_numeric op_arg_dtype then "cont" else "disc" in
  let funcname := "percentile_" ++ suffix in
  agg funcname [arg; quantile] where_.

Definition visit_HexDigest (arg : expr) (how : string) : result expr :=
  if bool_decide (how ∈ ["md5"; "sha256"]) then
    Ok (f how [arg])
  else
    Raise (NotImplementedError ("No available hashing function for " ++ how)).
End Rules.

(** ** Further rules of the compiler *)

(** [functools.reduce(function, iterable)] without an initial value: a
    left fold seeded with the first element.  [None] stands for the
    [TypeError] Python raises on an empty iterable. *)
Definition reduce {A : Type} (function : A -> A -> A) (iterable : list A)
    : option A :=
  match iterable with
  | [] => None
  | x :: rest => Some (fold_left function rest x)
  end.

Definition visit_ArrayConcat (arg : list expr) : option expr :=
  reduce (fun a b => f "list_concat" [a; b]) arg.

Definition visit_ArrayRepeat (arg times : expr) : expr :=
  let func := Lambda arg [Identifier "_"] in
  f "flatten" [f "list_apply" [f "range" [times]; func]].

Definition visit_ArrayMap (arg body : expr) (param : string) : expr :=
  let lamduh := Lambda body [Identifier param] in
  f "list_apply" [arg; lamduh].

Definition visit_ArrayFilter (arg body : expr) (param : string) : expr :=
  let lamduh := Lambda body [Identifier param] in
  f "list_filter" [arg; lamduh].

Definition visit_ArrayIntersect (left right : expr) : expr :=
  let param := Identifier "x" in
  let body := f "list_contains" [right; param] in
  let lamduh := Lambda body [param] in
  f "list_filter" [left; lamduh].

Definition visit_ArrayRemove (arg other : expr) : expr :=
  let param := Identifier "x" in
  let body := NEQ param other in
  let lamduh := Lambda body [param] in
  f "list_filter" [arg; lamduh].

Definition visit_ToJSONMap (op_dtype : dt.DataType) (arg : expr) : expr :=
  TryCast arg op_dtype.

Definition visit_FindInSet (needle : expr) (values : list expr) : expr :=
  f "list_indexof" [f "array" values; needle].

Definition visit_ExtractMillisecond (arg : expr) : expr :=
  f "mod" [f "extract" [Literal_string "ms"; arg]; Literal_number 1000].

Definition visit_ExtractMicrosecond (arg : expr) : expr :=
  f "mod" [f "extract" [Literal_string "us"; arg]; Literal_number 1000000].

(** [op_dtype_timezone] is [op.dtype.timezone], [None] for a timestamp
    type without a timezone. *)
Definition visit_TimestampFromYMDHMS (op_dtype_timezone : option string)
    (year month day hours minutes seconds : expr) : expr :=
  let args := [year; month; day; hours; minutes; seconds] in
  match op_dtype_timezone with
  | Some timezone =>
      f ("make_timestamp" ++ "tz") (args ++ [Literal_string timezone])
  | None => f "make_timestamp" args
  end.

Definition visit_Capitalize (arg : expr) : expr :=
  f "concat"
    [f "upper" [f "substr" [arg; Literal_number 1; Literal_number 1]];
     f "lower" [f "substr" [arg; Literal_number 2]]].

Definition visit_GeoConvert (arg source target : expr) : expr :=
  f "st_transform" [arg; source; target; Literal_bool true].

(** ** The uniform-mapping table and its registration loop *)

Module ops.
(** The node classes that key [_SIMPLE_OPS]. *)
Inductive kind : Type :=
| ArrayPosition | BitAnd | BitOr | BitXor | EndsWith | Hash
| IntegerRange | TimestampRange | MapKeys | MapLength | MapMerge
| MapValues | Mode | TimeFromHMS | TypeOf | GeoPoint | GeoAsText
| GeoArea | GeoBuffer | GeoCentroid | GeoContains | GeoCovers
| GeoCoveredBy | GeoCrosses | GeoDifference | GeoDisjoint | GeoDistance
| GeoDWithin | GeoEndPoint | GeoEnvelope | GeoEquals
| GeoFlipCoordinates | GeoGeometryType | GeoIntersection
| GeoIntersects | GeoIsValid | GeoLength | GeoNPoints | GeoOverlaps
| GeoStartPoint | GeoTouches | GeoUnion | GeoUnaryUnion | GeoWithin
| GeoX | GeoY.

#[global] Instance kind_eq_dec : EqDecision kind.
Proof. solve_decision. Defined.

(** Modelled from the spec: [issubclass(_op, ops.Reduction)] is decided
    by the class hierarchy of [ibis.expr.operations], not under src/.
    Of the table's keys, the bitwise aggregates, the mode and the
    geospatial union aggregate are the reduction kinds. *)
Definition is_Reduction (k : kind) : bool :=
  match k with
  | BitAnd | BitOr | BitXor | Mode | GeoUnaryUnion => true
  | _ => false
  end.
End ops.

Definition _SIMPLE_OPS : list (ops.kind * string) := [
  (ops.ArrayPosition, "list_indexof");
  (ops.BitAnd, "bit_and");
  (ops.BitOr, "bit_or");
  (ops.BitXor, "bit_xor");
  (ops.EndsWith, "suffix");
  (ops.Hash, "hash");
  (ops.IntegerRange, "range");
  (ops.TimestampRange, "range");
  (ops.MapKeys, "map_keys");
  (ops.MapLength, "cardinality");
  (ops.MapMerge, "map_concat");
  (ops.MapValues, "map_values");
  (ops.Mode, "mode");
  (ops.TimeFromHMS, "make_time");
  (ops.TypeOf, "typeof");
  (ops.GeoPoint, "st_point");
  (ops.GeoAsText, "st_astext");
  (ops.GeoArea, "st_area");
  (ops.GeoBuffer, "st_buffer");
  (ops.GeoCentroid, "st_centroid");
  (ops.GeoContains, "st_contains");
  (ops.GeoCovers, "st_covers");
  (ops.GeoCoveredBy, "st_coveredby");
  (ops.GeoCrosses, "st_crosses");
  (ops.GeoDifference, "st_difference");
  (ops.GeoDisjoint, "st_disjoint");
  (ops.GeoDistance, "st_distance");
  (ops.GeoDWithin, "st_dwithin");
  (ops.GeoEndPoint, "st_endpoint");
  (ops.GeoEnvelope, "st_envelope");
  (ops.GeoEquals, "st_equals");
  (ops.GeoFlipCoordinates, "st_flipcoordinates");
  (ops.GeoGeometryType, "st_geometrytype");
  (ops.GeoIntersection, "st_intersection");
  (ops.GeoIntersects, "st_intersects");
  (ops.GeoIsValid, "st_isvalid");
  (ops.GeoLength, "st_length");
  (ops.GeoNPoints, "st_npoints");
  (ops.GeoOverlaps, "st_overlaps");
  (ops.GeoStartPoint, "st_startpoint");
  (ops.GeoTouches, "st_touches");
  (ops.GeoUnion, "st_union");
  (ops.GeoUnaryUnion, "st_union_agg");
  (ops.GeoWithin, "st_within");
  (ops.GeoX, "st_x");
  (ops.GeoY, "st_y")
].

(** A generated rule.  A reduction rule takes [where] as a keyword of its
    own and the node's other children, in field order, as [kw]; a scalar
    rule takes all children as [kw]. *)
Inductive rule : Type :=
| ReductionRule (fmt : list expr -> option expr -> expr)
| ScalarRule (fmt : list expr -> expr).

Definition _fmt_reduction (_name : string) (kw : list expr)
    (where_ : option expr) : expr :=
  agg _name kw where_.

Definition _fmt_scalar (_name : string) (kw : list expr) : expr :=
  f _name kw.

Fixpoint rule_for (k : ops.kind) (rules : list (ops.kind * rule))
    : option rule :=
  match rules with
  | [] => None
  | (k', r) :: rules' => if bool_decide (k' = k) then Some r else rule_for k rules'
  end.

Section Registration.
(** The class test of the loop, [issubclass(_op, ops.Reduction)]. *)
Variable issubclass_Reduction : ops.kind -> bool.

(** One pass of the loop body: the rule attached to [_op]. *)
Definition register_simple_op (entry : ops.kind * string) : ops.kind * rule :=
  let '(_op, _name) := entry in
  if issubclass_Reduction _op
  then (_op, ReductionRule (_fmt_reduction _name))
  else (_op, ScalarRule (_fmt_scalar _name)).

(** The rules registered once the loop has run over [_SIMPLE_OPS]. *)
Definition simple_rules : list (ops.kind * rule) :=
  map register_simple_op _SIMPLE_OPS.

(** Dispatch on the node class: the rule registered for [k], if any. *)
Definition simple_rule (k : ops.kind) : option rule :=
  rule_for k simple_rules.
End Registration.

(** ** Reference semantics of the emitted DuckDB expressions *)

(** What the claims say about the _result_ of a compiled expression needs
    a meaning for the DuckDB functions the rules call.  This module fixes
    one, following DuckDB's documentation: lists are 1-based,
    [list_extract] counts a negative position from the end and yields
    NULL out of range, [list_slice] takes inclusive bounds, [list_count]
    counts the non-NULL elements, [list_distinct] drops duplicates and
    NULLs, [element_at] on a map yields a list holding the value or
    nothing, [+] on two lists concatenates them, and a comparison or sum
    with NULL is NULL.  An integer whose SQL type the expression does not
    show is unbounded here (the sums the slice rules build over such
    integers stay between 0 and the array length plus one).  A sum with
    an operand cast to a fixed-width integer type is carried out in that
    type, as the index rule builds it with both operands of the index's
    own type, and has no value outside the type's bounds, where the
    engine raises Out of Range.  DuckDB leaves the element order of
    [list_distinct] unspecified; the model keeps first occurrences in
    order, and no property below that compares two distinct results
    depends on it.  [eval] answers [None] where the engine raises and
    outside this fragment. *)
Module duckdb.

Inductive value : Type :=
| VNull
| VBool (b : bool)
| VInt (n : Z)
| VStr (s : string)
| VList (xs : list value)
| VMap (entries : list (value * value)).

Definition is_null (v : value) : bool :=
  match v with VNull => true | _ => false end.

Fixpoint value_eqb (a b : value) {struct a} : bool :=
  match a, b with
  | VNull, VNull => true
  | VBool x, VBool y => Bool.eqb x y
  | VInt x, VInt y => (x =? y)%Z
  | VStr x, VStr y => (x =? y)%string
  | VList xs, VList ys =>
      (fix all2 (xs ys : list value) {struct xs} : bool :=
         match xs, ys with
         | [], [] => true
         | x :: xs', y :: ys' => value_eqb x y && all2 xs' ys'
         | _, _ => false
         end) xs ys
  | VMap xs, VMap ys =>
      (fix all2 (xs ys : list (value * value)) {struct xs} : bool :=
         match xs, ys with
         | [], [] => true
         | (k, v) :: xs', (k', v') :: ys' =>
             value_eqb k k' && value_eqb v v' && all2 xs' ys'
         | _, _ => false
         end) xs ys
  | _, _ => false
  end.

(** Duplicates removed, first occurrences kept. *)
Fixpoint dedup (xs : list value) : list value :=
  match xs with
  | [] => []
  | x :: xs' => x :: filter (fun y => negb (value_eqb x y)) (dedup xs')
  end.

Definition non_null (xs : list value) : list value :=
  filter (fun v => negb (is_null v)) xs.

Definition list_distinct (xs : list value) : list value :=
  dedup (non_null xs).

Definition list_count (xs : list value) : Z :=
  Z.of_nat (length (non_null xs)).

Definition len (xs : list value) : Z := Z.of_nat (length xs).

(** Position [i] of a list: 1-based from the front, -1-based from the
    back, NULL at 0 and out of range. *)
Definition list_extract (xs : list value) (i : Z) : value :=
  if 0 <? i then default VNull (xs !! Z.to_nat (i - 1))
  else if (i <? 0) && (0 <=? len xs + i)
       then default VNull (xs !! Z.to_nat (len xs + i))
       else VNull.

(** Positions [b..e], both inclusive, for [1 <= b] and [0 <= e]. *)
Definition list_slice (xs : list value) (b e : Z) : option (list value) :=
  if (1 <=? b) && (0 <=? e)
  then Some (drop (Z.to_nat (b - 1)) (take (Z.to_nat e) xs))
  else None.

Fixpoint map_lookup (k : value) (entries : list (value * value))
    : option value :=
  match entries with
  | [] => None
  | (k', v) :: entries' =>
      if value_eqb k' k then Some v else map_lookup k entries'
  end.

(** [element_at(map, key)]: a one-element list when the key is present,
    the empty list when it is not. *)
Definition element_at (entries : list (value * value)) (k : value)
    : list value :=
  match map_lookup k entries with
  | Some v => [v]
  | None => []
  end.

Fixpoint sequence {A : Type} (xs : list (option A)) : option (list A) :=
  match xs with
  | [] => Some []
  | Some x :: xs' =>
      match sequence xs' with
      | Some ys => Some (x :: ys)
      | None => None
      end
  | None :: _ => None
  end.

Definition all_ints (vs : list value) : option (list Z) :=
  sequence (map (fun v => match v with VInt n => Some n | _ => None end) vs).

(** The meaning of a call by name on evaluated arguments. *)
Definition call (name : string) (args : list value) : option value :=
  if bool_decide (name ∈ ["len"; "array_size"]) then
    match args with
    | [VList xs] => Some (VInt (len xs))
    | [VNull] => Some VNull
    | _ => None
    end
  else if (name =? "list_count")%string then
    match args with
    | [VList xs] => Some (VInt (list_count xs))
    | [VNull] => Some VNull
    | _ => None
    end
  else if (name =? "list_distinct")%string then
    match args with
    | [VList xs] => Some (VList (list_distinct xs))
    | [VNull] => Some VNull
    | _ => None
    end
  else if (name =? "array")%string then
    Some (VList args)
  else if (name =? "list_concat")%string then
    match args with
    | [VList xs; VList ys] => Some (VList (xs ++ ys))
    | _ => None
    end
  else if (name =? "list_extract")%string then
    match args with
    | [VList xs; VInt i] => Some (list_extract xs i)
    | [VNull; VInt _] | [VList _; VNull] | [VNull; VNull] => Some VNull
    | _ => None
    end
  else if (name =? "list_slice")%string then
    match args with
    | [VList xs; VInt b; VInt e] => VList <$> list_slice xs b e
    | _ => None
    end
  else if (name =? "greatest")%string then
    match all_ints args with
    | Some (n :: ns) => Some (VInt (foldr Z.max n ns))
    | _ => None
    end
  else if (name =? "least")%string then
    match all_ints args with
    | Some (n :: ns) => Some (VInt (foldr Z.min n ns))
    | _ => None
    end
  else if (name =? "element_at")%string then
    match args with
    | [VMap entries; k] =>
        if is_null k then None else Some (VList (element_at entries k))
    | _ => None
    end
  else if (name =? "ifnull")%string then
    match args with
    | [a; b] => Some (if is_null a then b else a)
    | _ => None
    end
  else None.

Definition compare (op : Z -> Z -> bool) (a b : value) : option value :=
  match a, b with
  | VInt x, VInt y => Some (VBool (op x y))
  | VNull, VInt _ | VInt _, VNull | VNull, VNull => Some VNull
  | _, _ => None
  end.

(** The fixed-width integer type an operand is known to have from the
    expression alone: the target of a cast to an integer type. *)
Definition int_type_of (e : expr) : option dt.DataType :=
  match e with
  | Cast _ to => if dt.is_integer to then Some to else None
  | _ => None
  end.

(** The wider of two integer types. *)
Definition wider (t u : dt.DataType) : dt.DataType :=
  match dt.bounds t, dt.bounds u with
  | Some (_, hi), Some (_, hi') => if hi <? hi' then u else t
  | _, _ => t
  end.

(** The integer type a sum is carried out in, when an operand shows
    one: the wider type when both do. *)
Definition sum_type (a b : expr) : option dt.DataType :=
  match int_type_of a, int_type_of b with
  | Some t, Some u => Some (wider t u)
  | Some t, None | None, Some t => Some t
  | None, None => None
  end.

(** [a + b] carried out in type [width]: an integer sum outside the
    bounds of the type has no value (Out of Range). *)
Definition plus (width : option dt.DataType) (a b : value) : option value :=
  match a, b with
  | VInt x, VInt y =>
      if match width with
         | Some t => dt.in_range t (x + y)
         | None => true
         end
      then Some (VInt (x + y))
      else None
  | VNull, VInt _ | VInt _, VNull | VNull, VNull => Some VNull
  | VList xs, VList ys => Some (VList (xs ++ ys))
  | _, _ => None
  end.

Definition env : Type := string -> option value.

Fixpoint eval (ρ : env) (e : expr) {struct e} : option value :=
  match e with
  | Null => Some VNull
  | Literal_number n => Some (VInt n)
  | Literal_string s => Some (VStr s)
  | Literal_bool b => Some (VBool b)
  | Column name => ρ name
  | Func name args =>
      match sequence (map (eval ρ) args) with
      | Some vs => call name vs
      | None => None
      end
  | If c t e' =>
      match eval ρ c with
      | Some (VBool true) => eval ρ t
      | Some (VBool false) | Some VNull => eval ρ e'
      | _ => None
      end
  | Is a b =>
      match eval ρ a, eval ρ b with
      | Some v, Some VNull => Some (VBool (is_null v))
      | _, _ => None
      end
  | Add a b =>
      match eval ρ a, eval ρ b with
      | Some x, Some y => plus (sum_type a b) x y
      | _, _ => None
      end
  | LT a b =>
      match eval ρ a, eval ρ b with
      | Some x, Some y => compare Z.ltb x y
      | _, _ => None
      end
  | GTE a b =>
      match eval ρ a, eval ρ b with
      | Some x, Some y => compare Z.geb x y
      | _, _ => None
      end
  | Neg a =>
      match eval ρ a with
      | Some (VInt x) => Some (VInt (- x))
      | Some VNull => Some VNull
      | _ => None
      end
  | Cast a to =>
      match eval ρ a with
      | Some (VBool b) =>
          if dt.is_integer to then Some (VInt (if b then 1 else 0)) else None
      | Some VNull => Some VNull
      | _ => None
      end
  | _ => None
  end.

End duckdb.

(** [_SIMPLE_OPS.get(k)]: the function name the table gives a node class. *)
Fixpoint simple_name (k : ops.kind) (table : list (ops.kind * string))
    : option string :=
  match table with
  | [] => None
  | (k', name) :: table' =>
      if bool_decide (k' = k) then Some name else simple_name k table'
  end.

(** ** Statements of the specification, in its own words *)

(** What the correlation rule does to one operand: a boolean operand is
    cast to [Int32] with the operand's own nullability, any other operand
    is passed on as it is. *)
Definition widened (operand_dtype : dt.DataType) (operand : expr) : expr :=
  match operand_dtype with
  | dt.Boolean nullable => Cast operand (dt.Int32 nullable)
  | _ => operand
  end.

(** Negative-index normalization as the specification words it: [i] when
    [i >= 0], else [max (L + i) 0]. *)
Definition normalized_index (L i : Z) : Z :=
  if 0 <=? i then i else Z.max (L + i) 0.

(** The 0-based, end-exclusive window a slice selects once its bounds
    are normalized: an omitted start is 0, an omitted stop is [L]. *)
Definition slice_begin (L : Z) (start : option Z) : Z :=
  match start with
  | None => 0
  | Some i => Z.min L (normalized_index L i)
  end.

Definition slice_end (L : Z) (stop : option Z) : Z :=
  match stop with
  | None => L
  | Some j => normalized_index L j
  end.

(** An optional slice bound and the integer it evaluates to. *)
Definition bound_is (ρ : duckdb.env) (bound : option expr) (n : option Z)
    : Prop :=
  match bound, n with
  | None, None => True
  | Some e, Some i => duckdb.eval ρ e = Some (duckdb.VInt i)
  | _, _ => False
  end.

(** The reading of the specification under which single-element indexing
    shares the slice rule: the element is extracted at the normalized
    index, shifted by one for the 1-based primitive. *)
Definition index_normalized_like_slice : Prop :=
  forall (ρ : duckdb.env) (dtype : dt.DataType) (arg index : expr)
         (xs : list duckdb.value) (i : Z),
    dt.is_integer dtype = true ->
    duckdb.eval ρ arg = Some (duckdb.VList xs) ->
    duckdb.eval ρ index = Some (duckdb.VInt i) ->
    duckdb.eval ρ (visit_ArrayIndex dtype arg index) =
    Some (duckdb.list_extract xs (normalized_index (duckdb.len xs) i + 1)).

(** The reading of the specification for distinct: one trailing null
    exactly when the original array is longer than the deduplicated
    one. *)
Definition distinct_sentinel_by_length : Prop :=
  forall (ρ : duckdb.env) (arg : expr) (xs : list duckdb.value),
    duckdb.eval ρ arg = Some (duckdb.VList xs) ->
    duckdb.eval ρ (visit_ArrayDistinct arg) =
    Some (duckdb.VList
            (duckdb.list_distinct xs ++
             if (length (duckdb.list_distinct xs) <? length xs)%nat
             then [duckdb.VNull] else [])).

(** The reading of the specification for map lookup: the default stands
    in only for an absent key, and a present key yields its stored value
    even when that value is null. *)
Definition map_get_default_only_when_absent : Prop :=
  forall (ρ : duckdb.env) (arg key default : expr)
         (entries : list (duckdb.value * duckdb.value))
         (k d : duckdb.value),
    duckdb.eval ρ arg = Some (duckdb.VMap entries) ->
    duckdb.eval ρ key = Some k ->
    duckdb.is_null k = false ->
    duckdb.eval ρ default = Some d ->
    duckdb.eval ρ (visit_MapGet arg key default) =
    Some match duckdb.map_lookup k entries with
         | Some v => v
         | None => d
         end.

(** A map column [m] holding [{1: NULL, 2: 7}]. *)
Definition sample_map_env : duckdb.env :=
  fun name =>
    if (name =? "m")%string
    then Some (duckdb.VMap [(duckdb.VInt 1, duckdb.VNull);
                           (duckdb.VInt 2, duckdb.VInt 7)])
    else None.

(** The numeric value of a literal, when its type is numeric. *)
Definition literal_number (dtype : dt.DataType)
    : py.value_of dtype -> option py.number :=
  match dtype return py.value_of dtype -> option py.number with
  | dt.Int8 _ | dt.Int16 _ | dt.Int32 _ | dt.Int64 _
  | dt.Float32 _ | dt.Float64 _ | dt.Decimal _ => fun value => Some value
  | _ => fun _ => None
  end.

(** ** Reference behaviour of Python sequences *)

(** [xs[i]] on a Python list, with NULL where Python raises
    [IndexError]: a non-negative index counts from the front, a negative
    one from the back. *)
Definition py_getitem (xs : list duckdb.value) (i : Z) : duckdb.value :=
  let L := Z.of_nat (length xs) in
  if (0 <=? i) && (i <? L) then default duckdb.VNull (xs !! Z.to_nat i)
  else if (- L <=? i) && (i <? 0)
       then default duckdb.VNull (xs !! Z.to_nat (L + i))
       else duckdb.VNull.

(** One bound of [xs[start:stop]], as [slice.indices] computes it for a
    step of 1: a negative bound is counted from the end and floored at 0,
    a non-negative one is capped at the length. *)
Definition py_slice_bound (L : Z) (bound : option Z) (omitted : Z) : Z :=
  match bound with
  | None => omitted
  | Some i => if i <? 0 then Z.max (L + i) 0 else Z.min i L
  end.

Definition py_slice (xs : list duckdb.value) (start stop : option Z)
    : list duckdb.value :=
  let L := Z.of_nat (length xs) in
  let lo := py_slice_bound L start 0 in
  let hi := py_slice_bound L stop L in
  drop (Z.to_nat lo) (take (Z.to_nat hi) xs).

(** ** Reading a rendered binary literal back *)

(** The value of a lower-case hex digit. *)
Fixpoint index_of (c : ascii) (s : string) : option nat :=
  match s with
  | EmptyString => None
  | String.String c' s' =>
      if Ascii.eqb c c' then Some O else S <$> index_of c s'
  end.

Definition unhex (c : ascii) : option N :=
  N.of_nat <$> index_of c "0123456789abcdef".

(** The bytes denoted by a text made only of [\xHH] escapes, the form in
    which the literal rule writes a blob; [None] on any other text. *)
Fixpoint blob_of_escapes (s : string) : option (list N) :=
  match s with
  | EmptyString => Some []
  | String.String c1 (String.String c2 (String.String h (String.String l rest))) =>
      if Ascii.eqb c1 "\"%char && Ascii.eqb c2 "x"%char then
        match unhex h, unhex l, blob_of_escapes rest with
        | Some a, Some b, Some bs => Some ((16 * a + b)%N :: bs)
        | _, _, _ => None
        end
      else None
  | _ => None
  end.

(** * Properties of the rules *)

(** ** Interval construction and the nanosecond unit *)

Section IntervalPaths.
Variable dialect : string.

Lemma short_ns_inv (unit : IntervalUnit) : short unit = "ns" -> unit = NANOSECOND.
Proof. destruct unit; simpl; congruence. Qed.

(** Interval-from-integer rejects a nanosecond unit with the
    unsupported-operation error. *)
Lemma visit_IntervalFromInteger_ns (arg : expr) :
  visit_IntervalFromInteger dialect arg NANOSECOND =
  Raise (UnsupportedOperationError
           (dialect ++ " doesn't support nanosecond interval resolutions")).
Proof. reflexivity. Qed.

(** Every other unit is accepted by interval-from-integer; a week becomes
    seven days. *)
Lemma visit_IntervalFromInteger_other (arg : expr) (unit : IntervalUnit) :
  unit <> NANOSECOND ->
  visit_IntervalFromInteger dialect arg unit =
  Ok (if bool_decide (unit = WEEK)
      then Func "to_days" [Mul arg (Literal_number 7)]
      else Func ("to_" ++ singular unit ++ "s") [arg]).
Proof. destruct unit; intros Hne; try reflexivity; congruence. Qed.

(** The interval branch of literal rendering rejects a nanosecond unit
    with the same error. *)
Lemma visit_NonNullLiteral_ns (nullable : bool) (value : Z) :
  visit_NonNullLiteral dialect (dt.Interval NANOSECOND nullable) value =
  Raise (UnsupportedOperationError
           (dialect ++ " doesn't support nanosecond interval resolutions")).
Proof. reflexivity. Qed.

Lemma visit_NonNullLiteral_interval_other
    (unit : IntervalUnit) (nullable : bool) (value : Z) :
  unit <> NANOSECOND ->
  visit_NonNullLiteral dialect (dt.Interval unit nullable) value =
  Ok (Some (SgeInterval (Literal_string (pretty value))
                        (py.upper (singular unit)))).
Proof. destruct unit; intros Hne; try reflexivity; congruence. Qed.

(** The units a cast to an interval type accepts are the keys of
    [_INTERVAL_SUFFIXES]: everything but quarter, week and nanosecond. *)
Lemma _INTERVAL_SUFFIXES_keys (unit : IntervalUnit) :
  _INTERVAL_SUFFIXES !! short unit = None <->
  unit = QUARTER \/ unit = WEEK \/ unit = NANOSECOND.
Proof.
  split.
  - destruct unit; vm_compute; intros H; try discriminate H; tauto.
  - intros [-> | [-> | ->]]; reflexivity.
Qed.

(** C2 (cast path): a cast to a nanosecond interval type does not raise
    the unsupported-operation error of the two sibling paths.  The unit
    is looked up in [_INTERVAL_SUFFIXES], which has no ["ns"] key, so the
    rule fails with a [KeyError] on that key. *)
Theorem visit_Cast_nanosecond_KeyError
    (op_arg_dtype : dt.DataType) (arg : expr) (nullable : bool) :
  visit_Cast op_arg_dtype arg (dt.Interval NANOSECOND nullable) =
    Raise (KeyError "ns")
  /\ is_unsupported
       (visit_Cast op_arg_dtype arg (dt.Interval NANOSECOND nullable)) = false
  /\ is_unsupported (visit_IntervalFromInteger dialect arg NANOSECOND) = true
  /\ (forall value,
        is_unsupported
          (visit_NonNullLiteral dialect (dt.Interval NANOSECOND nullable) value)
        = true).
Proof. repeat split. Qed.

End IntervalPaths.

(** ** Timestamps from UNIX epochs *)

(** C10: only seconds and milliseconds are translated, to the
    epoch-seconds node and the [epoch_ms] call; microseconds, nanoseconds
    and so every other unit raise the unsupported-operation error. *)
Theorem visit_TimestampFromUNIX_units (arg : expr) :
  visit_TimestampFromUNIX arg TS_SECOND = Ok (UnixToTime arg)
  /\ visit_TimestampFromUNIX arg TS_MILLISECOND = Ok (Func "epoch_ms" [arg])
  /\ visit_TimestampFromUNIX arg TS_MICROSECOND =
       Raise (UnsupportedOperationError "'us' unit is not supported!")
  /\ visit_TimestampFromUNIX arg TS_NANOSECOND =
       Raise (UnsupportedOperationError "'ns' unit is not supported!")
  /\ (forall unit : TimestampUnit,
        is_unsupported (visit_TimestampFromUNIX arg unit) =
        negb (bool_decide (unit = TS_SECOND \/ unit = TS_MILLISECOND))).
Proof.
  repeat split. intros []; reflexivity.
Qed.

(** ** Correlation *)

Lemma visit_Correlation_not_sample
    (dialect : string) (lt rt : dt.DataType) (left right : expr)
    (how : string) (where_ : option expr) :
  how <> "sample" ->
  visit_Correlation dialect lt rt left right how where_ =
  Ok (_aggregate "corr" [widened lt left; widened rt right] where_).
Proof.
  intros Hhow. unfold visit_Correlation.
  destruct (String.eqb_spec how "sample") as [->|_]; [congruence|].
  destruct lt, rt; reflexivity.
Qed.

(** C7: the sample mode always raises the unsupported-operation error;
    the population mode (["pop"]) always succeeds with a call of the
    [corr] aggregate on the two operands, bare without a predicate and
    inside the filtered-aggregate wrapper with one; a boolean operand
    reaches the call cast to [Int32] with the nullability of the
    operand's own type, and any other operand reaches it unchanged. *)
Theorem visit_Correlation_modes
    (dialect : string) (lt rt : dt.DataType) (left right : expr)
    (where_ : option expr) :
  visit_Correlation dialect lt rt left right "sample" where_ =
    Raise (UnsupportedOperationError
             (dialect ++ " only implements `pop` correlation coefficient"))
  /\ visit_Correlation dialect lt rt left right "pop" None =
       Ok (Func "corr" [widened lt left; widened rt right])
  /\ (forall w,
        visit_Correlation dialect lt rt left right "pop" (Some w) =
        Ok (Filter (Func "corr" [widened lt left; widened rt right])
                   (Where w)))
  /\ (forall nl nr w,
        visit_Correlation dialect (dt.Boolean nl) (dt.Boolean nr)
          left right "pop" None =
          Ok (Func "corr" [Cast left (dt.Int32 nl); Cast right (dt.Int32 nr)])
        /\ visit_Correlation dialect (dt.Boolean nl) (dt.Boolean nr)
             left right "pop" (Some w) =
             Ok (Filter
                   (Func "corr"
                      [Cast left (dt.Int32 nl); Cast right (dt.Int32 nr)])
                   (Where w)))
  /\ (forall nullable operand,
        widened (dt.Boolean nullable) operand =
          Cast operand (dt.Int32 nullable)
        /\ dt.nullable (dt.Int32 nullable) =
             dt.nullable (dt.Boolean nullable))
  /\ (forall operand_dtype operand,
        dt.is_boolean operand_dtype = false ->
        widened operand_dtype operand = operand).
Proof.
  split; [reflexivity|]. split; [|split; [|split; [|split]]].
  - rewrite visit_Correlation_not_sample by discriminate. reflexivity.
  - intros w. rewrite visit_Correlation_not_sample by discriminate.
    reflexivity.
  - intros nl nr w.
    rewrite !visit_Correlation_not_sample by discriminate.
    split; reflexivity.
  - intros nullable operand. split; reflexivity.
  - intros [] operand Hnot; try reflexivity. discriminate Hnot.
Qed.

Lemma visit_Correlation_modes_witness :
  widened (dt.Float64 true) (Column "x") = Column "x"
  /\ visit_Correlation "duckdb" (dt.Boolean false) (dt.Float64 true)
       (Column "flag") (Column "x") "pop" (Some (Column "keep")) =
     Ok (Filter
           (Func "corr" [Cast (Column "flag") (dt.Int32 false); Column "x"])
           (Where (Column "keep"))).
Proof.
  split.
  - apply (visit_Correlation_modes "duckdb" (dt.Boolean false)
             (dt.Float64 true) (Column "flag") (Column "x") None).
    reflexivity.
  - apply (visit_Correlation_modes "duckdb" (dt.Boolean false)
             (dt.Float64 true) (Column "flag") (Column "x") None).
Defined.

(** ** Hex digests *)

(** C9: an algorithm on the allow-list ([md5], [sha256]) gives the call
    of that name on the single operand; any other name raises the error
    whose text starts with No available hashing function. *)
Theorem visit_HexDigest_allow_list (arg : expr) (how : string) :
  (how = "md5" \/ how = "sha256" ->
     visit_HexDigest arg how = Ok (Func how [arg]))
  /\ (how <> "md5" -> how <> "sha256" ->
        visit_HexDigest arg how =
        Raise (NotImplementedError
                 ("No available hashing function for " ++ how))).
Proof.
  unfold visit_HexDigest. split.
  - intros Hin. rewrite bool_decide_eq_true_2; [reflexivity|].
    destruct Hin as [-> | ->]; repeat constructor.
  - intros H1 H2. rewrite bool_decide_eq_false_2; [reflexivity|].
    intros Hin. inversion Hin as [|? ? ? Hin']; subst; [congruence|].
    inversion Hin' as [|? ? ? Hin'']; subst; [congruence|].
    inversion Hin''.
Qed.

Lemma visit_HexDigest_allow_list_witness :
  visit_HexDigest (Column "payload") "sha256" =
    Ok (Func "sha256" [Column "payload"])
  /\ visit_HexDigest (Column "payload") "sha1" =
       Raise (NotImplementedError "No available hashing function for sha1").
Proof.
  split.
  - apply (visit_HexDigest_allow_list (Column "payload") "sha256").
    right. reflexivity.
  - apply (visit_HexDigest_allow_list (Column "payload") "sha1");
      discriminate.
Defined.

(** ** The uniform-mapping table *)

Section UniformMapping.
Variable issubclass_Reduction : ops.kind -> bool.

(** The rule the loop attaches to a class, given the name the table maps
    the class to. *)
Let generated (k : ops.kind) (name : string) : rule :=
  if issubclass_Reduction k
  then ReductionRule (_fmt_reduction name)
  else ScalarRule (_fmt_scalar name).

Lemma rule_for_registered (k : ops.kind) (table : list (ops.kind * string)) :
  rule_for k (map (register_simple_op issubclass_Reduction) table) =
  generated k <$> simple_name k table.
Proof.
  induction table as [|[k' name] table IH]; [reflexivity|].
  cbn [map register_simple_op]. unfold generated in *.
  destruct (issubclass_Reduction k') eqn:Hk'; cbn [rule_for simple_name];
    case_bool_decide; subst; cbn; rewrite ?Hk'; auto.
Qed.

Lemma simple_name_of_entry (k : ops.kind) (name : string)
    (table : list (ops.kind * string)) :
  NoDup (table.*1) -> (k, name) ∈ table -> simple_name k table = Some name.
Proof.
  induction table as [|[k' name'] table IH]; intros Hnd Hin.
  - inversion Hin.
  - cbn in Hnd. apply NoDup_cons in Hnd as [Hfresh Hnd]. cbn.
    apply elem_of_cons in Hin as [Heq | Hin].
    + inversion Heq; subst. rewrite bool_decide_eq_true_2; auto.
    + rewrite bool_decide_eq_false_2; [auto|].
      intros ->. apply Hfresh. apply list_elem_of_fmap. exists (k, name). auto.
Qed.

(** No class is listed twice in the table, so dispatch is unambiguous. *)
Lemma _SIMPLE_OPS_keys_NoDup : NoDup (_SIMPLE_OPS.*1).
Proof. apply (bool_decide_unpack _). vm_compute. exact I. Qed.

Lemma simple_rule_of_entry (k : ops.kind) (name : string) :
  (k, name) ∈ _SIMPLE_OPS ->
  simple_rule issubclass_Reduction k = Some (generated k name).
Proof.
  intros Hin. unfold simple_rule, simple_rules.
  rewrite rule_for_registered.
  rewrite (simple_name_of_entry k name); [reflexivity| |assumption].
  apply _SIMPLE_OPS_keys_NoDup.
Qed.

(** A class of the table that is not a reduction gets a plain call over
    its children, in argument order. *)
Lemma simple_scalar_rule (_op : ops.kind) (_name : string) :
  (_op, _name) ∈ _SIMPLE_OPS ->
  issubclass_Reduction _op = false ->
  exists fmt,
    simple_rule issubclass_Reduction _op = Some (ScalarRule fmt)
    /\ forall kw, fmt kw = Func _name kw.
Proof.
  intros Hin Hred. exists (_fmt_scalar _name). split; [|reflexivity].
  rewrite (simple_rule_of_entry _ _ Hin). unfold generated.
  rewrite Hred. reflexivity.
Qed.

(** C8: for every reduction class of the uniform-mapping table, the
    generated rule with a [where] predicate is the filtered-aggregate
    wrapper around exactly the expression it gives without one, and
    without one it is the bare call of the table's function name on the
    children in argument order. *)
Theorem simple_reduction_threads_where (_op : ops.kind) (_name : string) :
  (_op, _name) ∈ _SIMPLE_OPS ->
  issubclass_Reduction _op = true ->
  exists fmt,
    simple_rule issubclass_Reduction _op = Some (ReductionRule fmt)
    /\ forall (kw : list expr) (w : expr),
         fmt kw None = Func _name kw
         /\ fmt kw (Some w) = Filter (Func _name kw) (Where w).
Proof.
  intros Hin Hred. exists (_fmt_reduction _name). split.
  - rewrite (simple_rule_of_entry _ _ Hin). unfold generated.
    rewrite Hred. reflexivity.
  - intros kw w. split; reflexivity.
Qed.

End UniformMapping.

Lemma simple_reduction_threads_where_witness :
  exists fmt,
    simple_rule ops.is_Reduction ops.BitXor = Some (ReductionRule fmt)
    /\ forall (kw : list expr) (w : expr),
         fmt kw None = Func "bit_xor" kw
         /\ fmt kw (Some w) = Filter (Func "bit_xor" kw) (Where w).
Proof.
  apply (simple_reduction_threads_where ops.is_Reduction ops.BitXor "bit_xor").
  - apply (bool_decide_unpack _). vm_compute. exact I.
  - reflexivity.
Defined.

(** ** Evaluation of the emitted expressions *)

Import duckdb.

Section Evaluation.
Variable ρ : env.

Lemma eval_Func1 (name : string) (a : expr) (v : value) :
  eval ρ a = Some v -> eval ρ (Func name [a]) = call name [v].
Proof. intros Ha. cbn [eval map sequence]. rewrite Ha. reflexivity. Qed.

Lemma eval_Func2 (name : string) (a b : expr) (v w : value) :
  eval ρ a = Some v -> eval ρ b = Some w ->
  eval ρ (Func name [a; b]) = call name [v; w].
Proof.
  intros Ha Hb. cbn [eval map sequence]. rewrite Ha, Hb. reflexivity.
Qed.

Lemma eval_Func3 (name : string) (a b c : expr) (u v w : value) :
  eval ρ a = Some u -> eval ρ b = Some v -> eval ρ c = Some w ->
  eval ρ (Func name [a; b; c]) = call name [u; v; w].
Proof.
  intros Ha Hb Hc. cbn [eval map sequence]. rewrite Ha, Hb, Hc. reflexivity.
Qed.

Lemma eval_If (c t e : expr) (b : bool) :
  eval ρ c = Some (VBool b) ->
  eval ρ (If c t e) = if b then eval ρ t else eval ρ e.
Proof. intros Hc. cbn [eval]. rewrite Hc. destruct b; reflexivity. Qed.

Lemma eval_GTE (a b : expr) (x y : Z) :
  eval ρ a = Some (VInt x) -> eval ρ b = Some (VInt y) ->
  eval ρ (GTE a b) = Some (VBool (x >=? y)).
Proof. intros Ha Hb. cbn [eval]. rewrite Ha, Hb. reflexivity. Qed.

Lemma eval_LT (a b : expr) (x y : Z) :
  eval ρ a = Some (VInt x) -> eval ρ b = Some (VInt y) ->
  eval ρ (LT a b) = Some (VBool (x <? y)).
Proof. intros Ha Hb. cbn [eval]. rewrite Ha, Hb. reflexivity. Qed.

Lemma eval_Add_int (a b : expr) (x y : Z) :
  sum_type a b = None ->
  eval ρ a = Some (VInt x) -> eval ρ b = Some (VInt y) ->
  eval ρ (Add a b) = Some (VInt (x + y)).
Proof.
  intros Hty Ha Hb. cbn [eval]. rewrite Ha, Hb, Hty. reflexivity.
Qed.

Lemma eval_Add_int_in (t : dt.DataType) (a b : expr) (x y : Z) :
  sum_type a b = Some t ->
  eval ρ a = Some (VInt x) -> eval ρ b = Some (VInt y) ->
  eval ρ (Add a b) =
  if dt.in_range t (x + y) then Some (VInt (x + y)) else None.
Proof.
  intros Hty Ha Hb. cbn [eval]. rewrite Ha, Hb, Hty. reflexivity.
Qed.

Lemma eval_Add_list (a b : expr) (xs ys : list value) :
  eval ρ a = Some (VList xs) -> eval ρ b = Some (VList ys) ->
  eval ρ (Add a b) = Some (VList (xs ++ ys)).
Proof. intros Ha Hb. cbn [eval]. rewrite Ha, Hb. reflexivity. Qed.

Lemma eval_Neg (a : expr) (x : Z) :
  eval ρ a = Some (VInt x) -> eval ρ (Neg a) = Some (VInt (- x)).
Proof. intros Ha. cbn [eval]. rewrite Ha. reflexivity. Qed.

Lemma eval_Is_NULL (a : expr) (v : value) :
  eval ρ a = Some v -> eval ρ (Is a NULL) = Some (VBool (is_null v)).
Proof. intros Ha. cbn [eval NULL]. rewrite Ha. reflexivity. Qed.

Lemma eval_len (a : expr) (xs : list value) :
  eval ρ a = Some (VList xs) ->
  eval ρ (Func "len" [a]) = Some (VInt (len xs)).
Proof. intros Ha. rewrite (eval_Func1 _ _ _ Ha). reflexivity. Qed.

Lemma eval_array_size (a : expr) (xs : list value) :
  eval ρ a = Some (VList xs) ->
  eval ρ (Func "array_size" [a]) = Some (VInt (len xs)).
Proof. intros Ha. rewrite (eval_Func1 _ _ _ Ha). reflexivity. Qed.

Lemma len_nonneg (xs : list value) : 0 <= len xs.
Proof. unfold len. lia. Qed.

Lemma normalized_index_clamped (L i : Z) :
  normalized_index L i = if 0 <=? i then i else L + Z.max i (- L).
Proof. unfold normalized_index. destruct (0 <=? i); lia. Qed.

Lemma normalized_index_nonneg (L i : Z) : 0 <= normalized_index L i.
Proof. unfold normalized_index. destruct (Z.leb_spec 0 i); lia. Qed.

Lemma normalized_index_le (L i : Z) :
  0 <= L -> i < 0 -> normalized_index L i <= L.
Proof. unfold normalized_index. destruct (Z.leb_spec 0 i); lia. Qed.

Lemma call_greatest (x y : Z) :
  call "greatest" [VInt x; VInt y] = Some (VInt (Z.max x y)).
Proof.
  transitivity (Some (VInt (Z.max y x))); [reflexivity|].
  f_equal. f_equal. lia.
Qed.

Lemma call_least (x y : Z) :
  call "least" [VInt x; VInt y] = Some (VInt (Z.min x y)).
Proof.
  transitivity (Some (VInt (Z.min y x))); [reflexivity|].
  f_equal. f_equal. lia.
Qed.

Lemma eval_neg_idx_to_pos (array idx : expr) (xs : list value) (i : Z) :
  eval ρ array = Some (VList xs) ->
  eval ρ idx = Some (VInt i) ->
  eval ρ (_neg_idx_to_pos array idx) =
  Some (VInt (normalized_index (len xs) i)).
Proof.
  intros Harr Hidx. unfold _neg_idx_to_pos, if_, f.
  pose proof (eval_array_size _ _ Harr) as Hsize.
  rewrite (eval_If _ _ _ (i >=? 0)) by (apply eval_GTE; auto).
  rewrite normalized_index_clamped.
  destruct (Z.leb_spec 0 i) as [Hi|Hi].
  - replace (i >=? 0) with true by lia. assumption.
  - replace (i >=? 0) with false by lia.
    apply eval_Add_int; [reflexivity|assumption|].
    rewrite (eval_Func2 _ _ _ (VInt i) (VInt (- len xs)));
      auto using eval_Neg, call_greatest.
Qed.

End Evaluation.

(** ** Negative-index normalization *)

(** C3: on an array of length [L] and an integer index [i], the
    expression built by [_neg_idx_to_pos] evaluates to [i] when [i >= 0]
    and to [max (L + i) 0] when [i < 0], which is the same number as
    [L + max i (- L)]. *)
Theorem neg_idx_to_pos_normalization
    (ρ : env) (array idx : expr) (xs : list value) (i : Z) :
  eval ρ array = Some (VList xs) ->
  eval ρ idx = Some (VInt i) ->
  eval ρ (_neg_idx_to_pos array idx) =
    Some (VInt (if 0 <=? i then i else Z.max (len xs + i) 0))
  /\ Z.max (len xs + i) 0 = len xs + Z.max i (- len xs).
Proof.
  intros Harr Hidx. split; [|lia].
  exact (eval_neg_idx_to_pos ρ array idx xs i Harr Hidx).
Qed.

Lemma neg_idx_to_pos_normalization_witness :
  eval (fun _ => None)
    (_neg_idx_to_pos (Func "array" [Literal_number 10; Literal_number 20])
                     (Literal_number (-3))) = Some (VInt 0).
Proof.
  exact (proj1 (neg_idx_to_pos_normalization (fun _ => None)
                  (Func "array" [Literal_number 10; Literal_number 20])
                  (Literal_number (-3)) [VInt 10; VInt 20] (-3)
                  eq_refl eq_refl)).
Defined.

(** The two instances the specification names: length 2 with index -3
    gives 0, length 5 with index -2 gives 3. *)
Example neg_idx_to_pos_L2_im3 (ρ : env) (array : expr) (a b : value) :
  eval ρ array = Some (VList [a; b]) ->
  eval ρ (_neg_idx_to_pos array (Literal_number (-3))) = Some (VInt 0).
Proof.
  intros Harr.
  exact (eval_neg_idx_to_pos ρ array (Literal_number (-3)) _ (-3) Harr eq_refl).
Qed.

Example neg_idx_to_pos_L5_im2 (ρ : env) (array : expr) (a b c d e : value) :
  eval ρ array = Some (VList [a; b; c; d; e]) ->
  eval ρ (_neg_idx_to_pos array (Literal_number (-2))) = Some (VInt 3).
Proof.
  intros Harr.
  exact (eval_neg_idx_to_pos ρ array (Literal_number (-2)) _ (-2) Harr eq_refl).
Qed.

(** ** Slicing *)

Section Slicing.
Variable ρ : env.
Variables (arg : expr) (xs : list value).
Hypothesis Harg : eval ρ arg = Some (VList xs).

Lemma eval_slice_begin (start : option expr) (i : option Z) :
  bound_is ρ start i ->
  exists b,
    (forall stop,
       visit_ArraySlice arg start stop =
       Func "list_slice"
         [arg; b;
          match stop with
          | None => Func "len" [arg]
          | Some stop => _neg_idx_to_pos arg stop
          end])
    /\ eval ρ b = Some (VInt (slice_begin (len xs) i + 1)).
Proof.
  destruct start as [start|], i as [i|]; cbn; try tauto; intros Hstart.
  - eexists. split; [intros stop; reflexivity|].
    apply eval_Add_int; [reflexivity| |reflexivity].
    rewrite (eval_Func2 ρ _ _ _ (VInt (len xs))
               (VInt (normalized_index (len xs) i)));
      auto using call_least, eval_len, eval_neg_idx_to_pos.
  - eexists. split; [intros stop; reflexivity|]. reflexivity.
Qed.

Lemma eval_slice_end (stop : option expr) (j : option Z) :
  bound_is ρ stop j ->
  eval ρ match stop with
         | None => Func "len" [arg]
         | Some stop => _neg_idx_to_pos arg stop
         end = Some (VInt (slice_end (len xs) j)).
Proof.
  destruct stop as [stop|], j as [j|]; cbn [bound_is slice_end];
    try tauto; intros Hstop;
    auto using eval_len, eval_neg_idx_to_pos.
Qed.

Lemma slice_begin_nonneg (i : option Z) : 0 <= slice_begin (len xs) i.
Proof.
  pose proof (len_nonneg xs). destruct i as [i|]; cbn; [|lia].
  pose proof (normalized_index_nonneg (len xs) i). lia.
Qed.

Lemma slice_end_nonneg (j : option Z) : 0 <= slice_end (len xs) j.
Proof.
  destruct j as [j|]; cbn;
    auto using len_nonneg, normalized_index_nonneg.
Qed.

(** The slice rule selects the window from [slice_begin] (inclusive) to
    [slice_end] (exclusive), counted from 0. *)
Lemma eval_visit_ArraySlice (start stop : option expr) (i j : option Z) :
  bound_is ρ start i ->
  bound_is ρ stop j ->
  eval ρ (visit_ArraySlice arg start stop) =
  Some (VList (drop (Z.to_nat (slice_begin (len xs) i))
                    (take (Z.to_nat (slice_end (len xs) j)) xs))).
Proof.
  intros Hstart Hstop.
  destruct (eval_slice_begin start i Hstart) as (b & -> & Hb).
  rewrite (eval_Func3 ρ _ _ _ _ _ _ _ Harg Hb (eval_slice_end stop j Hstop)).
  pose proof (slice_begin_nonneg i). pose proof (slice_end_nonneg j).
  change (VList <$> list_slice xs (slice_begin (len xs) i + 1)
                      (slice_end (len xs) j) =
          Some (VList (drop (Z.to_nat (slice_begin (len xs) i))
                    (take (Z.to_nat (slice_end (len xs) j)) xs)))).
  unfold list_slice.
  replace (1 <=? slice_begin (len xs) i + 1) with true by lia.
  replace (0 <=? slice_end (len xs) j) with true by lia.
  cbn. repeat f_equal. lia.
Qed.

End Slicing.

(** C5: with the start omitted the slice begins at 0 (the call receives
    the 1-based position [0 + 1]); with the stop omitted it ends at the
    array length [L] (the call receives [len(arg)]).  So an omitted start
    keeps the first [stop] elements, an omitted stop drops the first
    [start] elements, and with both omitted the array is returned whole. *)
Theorem visit_ArraySlice_defaults (ρ : env) (arg : expr) (xs : list value) :
  eval ρ arg = Some (VList xs) ->
  (forall stop, exists e,
     visit_ArraySlice arg None stop =
     Func "list_slice" [arg; Literal_number (0 + 1); e])
  /\ (forall start, exists b,
        visit_ArraySlice arg start None =
        Func "list_slice" [arg; b; Func "len" [arg]])
  /\ eval ρ (Func "len" [arg]) = Some (VInt (len xs))
  /\ (forall stop j,
        eval ρ stop = Some (VInt j) ->
        eval ρ (visit_ArraySlice arg None (Some stop)) =
        Some (VList (take (Z.to_nat (normalized_index (len xs) j)) xs)))
  /\ (forall start i,
        eval ρ start = Some (VInt i) ->
        eval ρ (visit_ArraySlice arg (Some start) None) =
        Some (VList (drop (Z.to_nat (normalized_index (len xs) i)) xs)))
  /\ eval ρ (visit_ArraySlice arg None None) = Some (VList xs).
Proof.
  intros Harg. repeat split.
  - intros stop. eexists. reflexivity.
  - intros [start|]; eexists; reflexivity.
  - auto using eval_len.
  - intros stop j Hstop.
    rewrite (eval_visit_ArraySlice ρ arg xs Harg None (Some stop) None (Some j));
      cbn [bound_is]; auto.
  - intros start i Hstart.
    rewrite (eval_visit_ArraySlice ρ arg xs Harg (Some start) None (Some i) None);
      cbn [bound_is]; auto.
    cbn [slice_begin slice_end]. unfold len. rewrite Nat2Z.id, firstn_all.
    do 2 f_equal.
    pose proof (normalized_index_nonneg (Z.of_nat (length xs)) i) as Hn.
    destruct (Z.le_gt_cases (normalized_index (Z.of_nat (length xs)) i)
                (Z.of_nat (length xs))) as [Hle|Hgt].
    + rewrite Z.min_r by lia. reflexivity.
    + rewrite Z.min_l by lia. rewrite Nat2Z.id.
      rewrite !drop_ge; auto; lia.
  - rewrite (eval_visit_ArraySlice ρ arg xs Harg None None None None);
      cbn [bound_is]; auto.
    cbn [slice_begin slice_end]. unfold len. rewrite Nat2Z.id, firstn_all.
    reflexivity.
Qed.

(** The instance the specification names: [[10,20,30,40]] sliced with the
    start omitted and stop 2 is [[10,20]]. *)
Lemma visit_ArraySlice_defaults_witness :
  eval (fun _ => None)
    (visit_ArraySlice
       (Func "array" [Literal_number 10; Literal_number 20;
                      Literal_number 30; Literal_number 40])
       None (Some (Literal_number 2))) =
  Some (VList [VInt 10; VInt 20]).
Proof.
  exact (proj1 (proj2 (proj2 (proj2
    (visit_ArraySlice_defaults (fun _ => None)
       (Func "array" [Literal_number 10; Literal_number 20;
                      Literal_number 30; Literal_number 40])
       [VInt 10; VInt 20; VInt 30; VInt 40] eq_refl))))
    (Literal_number 2) 2 eq_refl).
Defined.

(** ** Single-element indexing *)

Lemma eval_Cast_bool (ρ : env) (a : expr) (b : bool) (to : dt.DataType) :
  dt.is_integer to = true ->
  eval ρ a = Some (VBool b) ->
  eval ρ (Cast a to) = Some (VInt (if b then 1 else 0)).
Proof. intros Hto Ha. cbn [eval]. rewrite Ha, Hto. reflexivity. Qed.

Lemma eval_Func2_none (ρ : env) (name : string) (a b : expr) :
  eval ρ b = None -> eval ρ (Func name [a; b]) = None.
Proof.
  intros Hb. cbn [eval map sequence]. rewrite Hb.
  destruct (eval ρ a); reflexivity.
Qed.

Lemma in_range_wider (t u : dt.DataType) (n : Z) :
  dt.is_integer t = true ->
  dt.is_integer u = true ->
  dt.in_range u n = true ->
  dt.in_range (wider t u) n = true.
Proof.
  intros Ht Hu Hn.
  destruct t; try discriminate Ht; destruct u; try discriminate Hu;
    unfold wider, dt.in_range in *; cbn [dt.bounds] in *;
    match goal with
    | |- context [?a <? ?b] => destruct (Z.ltb_spec a b)
    end;
    cbn [dt.bounds];
    rewrite andb_true_iff, !Z.leb_le in *; lia.
Qed.

Lemma int_type_of_integer (e : expr) (t : dt.DataType) :
  int_type_of e = Some t -> dt.is_integer t = true.
Proof.
  destruct e; cbn; try discriminate.
  destruct (dt.is_integer to) eqn:Hto; [|discriminate].
  intros [= <-]. exact Hto.
Qed.

(** The position the index rule hands to [list_extract]: a non-negative
    index moves up by one, a negative index is passed on unchanged.  The
    sum is carried out in the index type, so the position must fit it. *)
Lemma eval_ArrayIndex_position
    (ρ : env) (dtype : dt.DataType) (index : expr) (i : Z) :
  dt.is_integer dtype = true ->
  eval ρ index = Some (VInt i) ->
  dt.in_range dtype (if 0 <=? i then i + 1 else i) = true ->
  eval ρ (Add index (cast (GTE index (Literal_number 0)) dtype)) =
  Some (VInt (if 0 <=? i then i + 1 else i)).
Proof.
  intros Hty Hidx Hfit. unfold cast.
  assert (exists t, sum_type index (Cast (GTE index (Literal_number 0)) dtype)
                    = Some t
                    /\ dt.in_range t (if 0 <=? i then i + 1 else i) = true)
    as (t & Hsum & Ht).
  { unfold sum_type. cbn [int_type_of]. rewrite Hty.
    destruct (int_type_of index) as [t'|] eqn:Hidx_ty.
    - eexists. split; [reflexivity|].
      apply in_range_wider; [exact (int_type_of_integer _ _ Hidx_ty)|exact Hty|exact Hfit].
    - eexists. split; [reflexivity|exact Hfit]. }
  rewrite (eval_Add_int_in ρ t _ _ i (if i >=? 0 then 1 else 0) Hsum Hidx).
  - replace (i + (if i >=? 0 then 1 else 0))
      with (if 0 <=? i then i + 1 else i)
      by (destruct (Z.leb_spec 0 i), (Z.geb_spec i 0); lia).
    rewrite Ht. reflexivity.
  - apply eval_Cast_bool; auto. apply eval_GTE; auto.
Qed.

(** At the index type's maximum the shift by one leaves the type: the sum
    has no value (the engine raises Out of Range). *)
Lemma eval_ArrayIndex_position_overflow
    (ρ : env) (dtype : dt.DataType) (index : expr) (i : Z) :
  dt.is_integer dtype = true ->
  int_type_of index = None ->
  eval ρ index = Some (VInt i) ->
  dt.in_range dtype (if 0 <=? i then i + 1 else i) = false ->
  eval ρ (Add index (cast (GTE index (Literal_number 0)) dtype)) = None.
Proof.
  intros Hty Hplain Hidx Hout. unfold cast.
  assert (sum_type index (Cast (GTE index (Literal_number 0)) dtype)
          = Some dtype) as Hsum.
  { unfold sum_type. cbn [int_type_of]. rewrite Hty, Hplain. reflexivity. }
  rewrite (eval_Add_int_in ρ dtype _ _ i (if i >=? 0 then 1 else 0) Hsum Hidx).
  - replace (i + (if i >=? 0 then 1 else 0))
      with (if 0 <=? i then i + 1 else i)
      by (destruct (Z.leb_spec 0 i), (Z.geb_spec i 0); lia).
    rewrite Hout. reflexivity.
  - apply eval_Cast_bool; auto. apply eval_GTE; auto.
Qed.

Lemma eval_visit_ArrayIndex
    (ρ : env) (dtype : dt.DataType) (arg index : expr)
    (xs : list value) (i : Z) :
  dt.is_integer dtype = true ->
  eval ρ arg = Some (VList xs) ->
  eval ρ index = Some (VInt i) ->
  dt.in_range dtype (if 0 <=? i then i + 1 else i) = true ->
  eval ρ (visit_ArrayIndex dtype arg index) =
  Some (list_extract xs (if 0 <=? i then i + 1 else i)).
Proof.
  intros Hty Harg Hidx Hfit. unfold visit_ArrayIndex, f.
  rewrite (eval_Func2 ρ _ _ _ _ _ Harg
             (eval_ArrayIndex_position ρ dtype index i Hty Hidx Hfit)).
  reflexivity.
Qed.

Lemma eval_visit_ArrayIndex_overflow
    (ρ : env) (dtype : dt.DataType) (arg index : expr) (a : value) (i : Z) :
  dt.is_integer dtype = true ->
  int_type_of index = None ->
  eval ρ arg = Some a ->
  eval ρ index = Some (VInt i) ->
  dt.in_range dtype (if 0 <=? i then i + 1 else i) = false ->
  eval ρ (visit_ArrayIndex dtype arg index) = None.
Proof.
  intros Hty Hplain Harg Hidx Hout. unfold visit_ArrayIndex, f.
  apply eval_Func2_none.
  apply (eval_ArrayIndex_position_overflow ρ dtype index i
           Hty Hplain Hidx Hout).
Qed.

(** In range, counting from the end agrees with normalizing first. *)
Lemma list_extract_from_end (xs : list value) (i : Z) :
  - len xs <= i < 0 ->
  list_extract xs i = list_extract xs (len xs + i + 1).
Proof.
  intros Hi. unfold list_extract.
  replace (0 <? i) with false by lia.
  replace (i <? 0) with true by lia.
  replace (0 <=? len xs + i) with true by lia.
  replace (0 <? len xs + i + 1) with true by lia.
  cbn. do 3 f_equal. lia.
Qed.

Lemma list_extract_below (xs : list value) (i : Z) :
  i < - len xs -> list_extract xs i = VNull.
Proof.
  intros Hi. pose proof (len_nonneg xs). unfold list_extract.
  replace (0 <? i) with false by lia.
  replace (0 <=? len xs + i) with false by lia.
  rewrite andb_false_r. reflexivity.
Qed.

(** C4, as the code has it: slice bounds go through the normalization
    ([i] if [i >= 0], else [max (L + i) 0]); the start is then capped at
    [L] and shifted by one, the stop is used as the inclusive 1-based
    end.  Single-element indexing does not normalize: it shifts a
    non-negative index by one and hands a negative index unchanged to
    [list_extract], which counts it from the end.  The shift is added in
    the index's own integer type.  Where the shifted index fits that
    type, the two agree for every index not below [- L], and below it
    indexing yields NULL; where it does not fit (a non-negative index at
    the type's maximum), indexing has no value: the engine raises Out of
    Range. *)
Theorem index_and_slice_normalization
    (ρ : env) (dtype : dt.DataType) (arg index start stop : expr)
    (xs : list value) (i s e : Z) :
  dt.is_integer dtype = true ->
  eval ρ arg = Some (VList xs) ->
  eval ρ index = Some (VInt i) ->
  eval ρ start = Some (VInt s) ->
  eval ρ stop = Some (VInt e) ->
  let shifted := if 0 <=? i then i + 1 else i in
  (exists p,
     visit_ArrayIndex dtype arg index = Func "list_extract" [arg; p]
     /\ (dt.in_range dtype shifted = true ->
         eval ρ p = Some (VInt shifted))
     /\ (int_type_of index = None ->
         dt.in_range dtype shifted = false ->
         eval ρ p = None))
  /\ (exists b e',
        visit_ArraySlice arg (Some start) (Some stop) =
          Func "list_slice" [arg; b; e']
        /\ eval ρ b =
             Some (VInt (Z.min (len xs) (normalized_index (len xs) s) + 1))
        /\ eval ρ e' = Some (VInt (normalized_index (len xs) e)))
  /\ (dt.in_range dtype shifted = true ->
      - len xs <= i ->
      eval ρ (visit_ArrayIndex dtype arg index) =
      Some (list_extract xs (normalized_index (len xs) i + 1)))
  /\ (dt.in_range dtype shifted = true ->
      i < - len xs ->
      eval ρ (visit_ArrayIndex dtype arg index) = Some VNull)
  /\ (int_type_of index = None ->
      dt.in_range dtype shifted = false ->
      eval ρ (visit_ArrayIndex dtype arg index) = None).
Proof.
  intros Hty Harg Hidx Hstart Hstop shifted. unfold shifted.
  split; [|split; [|split; [|split]]].
  - eexists. split; [reflexivity|]. split.
    + intros Hfit.
      apply (eval_ArrayIndex_position ρ dtype index i); assumption.
    + intros Hplain Hout.
      apply (eval_ArrayIndex_position_overflow ρ dtype index i); assumption.
  - destruct (eval_slice_begin ρ arg xs Harg (Some start) (Some s) Hstart)
      as (b & Hshape & Hb).
    exists b, (_neg_idx_to_pos arg stop). split; [apply (Hshape (Some stop))|].
    split; [exact Hb|]. apply eval_neg_idx_to_pos; assumption.
  - intros Hfit Hi.
    rewrite (eval_visit_ArrayIndex ρ dtype arg index xs i); auto.
    f_equal. unfold normalized_index.
    destruct (Z.leb_spec 0 i) as [Hpos|Hneg]; [reflexivity|].
    rewrite Z.max_l by lia. apply list_extract_from_end. lia.
  - intros Hfit Hi. pose proof (len_nonneg xs).
    rewrite (eval_visit_ArrayIndex ρ dtype arg index xs i); auto.
    replace (0 <=? i) with false by lia.
    f_equal. apply list_extract_below. assumption.
  - intros Hplain Hout.
    apply (eval_visit_ArrayIndex_overflow ρ dtype arg index (VList xs) i);
      assumption.
Qed.

Lemma index_and_slice_normalization_witness :
  eval (fun _ => None)
    (visit_ArrayIndex dt.int32
       (Func "array" [Literal_number 10; Literal_number 20])
       (Literal_number (-1))) = Some (VInt 20)
  /\ eval (fun _ => None)
       (visit_ArrayIndex (dt.Int8 true)
          (Func "array" [Literal_number 10; Literal_number 20])
          (Literal_number 127)) = None.
Proof.
  split.
  - exact (proj1 (proj2 (proj2
      (index_and_slice_normalization (fun _ => None) dt.int32
         (Func "array" [Literal_number 10; Literal_number 20])
         (Literal_number (-1)) (Literal_number 0) (Literal_number 1)
         [VInt 10; VInt 20] (-1) 0 1
         eq_refl eq_refl eq_refl eq_refl eq_refl)))
      eq_refl ltac:(vm_compute; discriminate)).
  - exact (proj2 (proj2 (proj2 (proj2
      (index_and_slice_normalization (fun _ => None) (dt.Int8 true)
         (Func "array" [Literal_number 10; Literal_number 20])
         (Literal_number 127) (Literal_number 0) (Literal_number 1)
         [VInt 10; VInt 20] 127 0 1
         eq_refl eq_refl eq_refl eq_refl eq_refl))))
      eq_refl eq_refl).
Defined.

(** The claim as stated fails below [- L]: on [[10, 20]] index -3 is
    handed to [list_extract] as it is and yields NULL, where the slice
    normalization would have clamped it to 0 and extracted 10. *)
Lemma index_normalized_like_slice_fails :
  eval (fun _ => None)
    (visit_ArrayIndex dt.int32
       (Func "array" [Literal_number 10; Literal_number 20])
       (Literal_number (-3))) = Some VNull
  /\ list_extract [VInt 10; VInt 20] (normalized_index 2 (-3) + 1) = VInt 10
  /\ ~ index_normalized_like_slice.
Proof.
  split; [reflexivity|]. split; [reflexivity|].
  intros Hclaim.
  specialize (Hclaim (fun _ => None) dt.int32
    (Func "array" [Literal_number 10; Literal_number 20])
    (Literal_number (-3)) [VInt 10; VInt 20] (-3)
    eq_refl eq_refl eq_refl).
  discriminate Hclaim.
Qed.

(** ** Map lookup with a default *)

Lemma eval_visit_MapGet
    (ρ : env) (arg key default : expr)
    (entries : list (value * value)) (k d : value) :
  eval ρ arg = Some (VMap entries) ->
  eval ρ key = Some k ->
  is_null k = false ->
  eval ρ default = Some d ->
  eval ρ (visit_MapGet arg key default) =
  Some (let v := list_extract (element_at entries k) 1 in
        if is_null v then d else v).
Proof.
  intros Harg Hkey Hk Hd. unfold visit_MapGet, f.
  assert (eval ρ (Func "element_at" [arg; key]) =
          Some (VList (element_at entries k))) as Hel.
  { rewrite (eval_Func2 ρ _ _ _ _ _ Harg Hkey).
    change (call "element_at" [VMap entries; k])
      with (if is_null k then None else Some (VList (element_at entries k))).
    rewrite Hk. reflexivity. }
  assert (eval ρ (Func "list_extract"
                    [Func "element_at" [arg; key]; Literal_number 1]) =
          Some (list_extract (element_at entries k) 1)) as Hex.
  { rewrite (eval_Func2 ρ _ _ _ _ (VInt 1) Hel); reflexivity. }
  rewrite (eval_Func2 ρ _ _ _ _ _ Hex Hd). reflexivity.
Qed.

(** C6, as the code has it: the lookup is unwrapped one level and the
    default replaces a null result.  So the default is returned when the
    key is absent and also when the key is present with a null value; a
    present key with a non-null value yields that value. *)
Theorem visit_MapGet_default
    (ρ : env) (arg key default : expr)
    (entries : list (value * value)) (k d : value) :
  eval ρ arg = Some (VMap entries) ->
  eval ρ key = Some k ->
  is_null k = false ->
  eval ρ default = Some d ->
  eval ρ (visit_MapGet arg key default) =
  Some match map_lookup k entries with
       | Some v => if is_null v then d else v
       | None => d
       end.
Proof.
  intros Harg Hkey Hk Hd.
  rewrite (eval_visit_MapGet ρ arg key default entries k d); auto.
  unfold element_at. destruct (map_lookup k entries) as [v|]; reflexivity.
Qed.

Lemma visit_MapGet_default_witness :
  eval sample_map_env
    (visit_MapGet (Column "m") (Literal_number 2) (Literal_number 0)) =
  Some (VInt 7).
Proof.
  exact (visit_MapGet_default sample_map_env
           (Column "m") (Literal_number 2) (Literal_number 0)
           [(VInt 1, VNull); (VInt 2, VInt 7)] (VInt 2) (VInt 0)
           eq_refl eq_refl eq_refl eq_refl).
Defined.

(** The claim as stated fails on a present key with a null value: in
    [{1: NULL, 2: 7}] key 1 is present and maps to NULL, and the rule
    yields the default 0 instead of the stored NULL. *)
Lemma map_get_default_only_when_absent_fails :
  map_lookup (VInt 1) [(VInt 1, VNull); (VInt 2, VInt 7)] = Some VNull
  /\ eval sample_map_env
       (visit_MapGet (Column "m") (Literal_number 1) (Literal_number 0)) =
     Some (VInt 0)
  /\ ~ map_get_default_only_when_absent.
Proof.
  split; [reflexivity|]. split; [reflexivity|].
  intros Hclaim.
  specialize (Hclaim sample_map_env
    (Column "m") (Literal_number 1) (Literal_number 0)
    [(VInt 1, VNull); (VInt 2, VInt 7)] (VInt 1) (VInt 0)
    eq_refl eq_refl eq_refl eq_refl).
  discriminate Hclaim.
Qed.

(** ** Distinct and union *)

(** Structural induction on values, through the lists nested in them. *)
Lemma value_nested_ind (P : value -> Prop) :
  P VNull ->
  (forall b, P (VBool b)) ->
  (forall n, P (VInt n)) ->
  (forall s, P (VStr s)) ->
  (forall xs, Forall P xs -> P (VList xs)) ->
  (forall entries,
     Forall (fun kv => P (fst kv) /\ P (snd kv)) entries ->
     P (VMap entries)) ->
  forall v, P v.
Proof.
  intros Hnull Hbool Hint Hstr Hlist Hmap.
  fix IH 1. intros [ | b | n | s | xs | entries ].
  - exact Hnull.
  - apply Hbool.
  - apply Hint.
  - apply Hstr.
  - apply Hlist. induction xs as [|x xs IHxs]; constructor; [apply IH|exact IHxs].
  - apply Hmap. induction entries as [|[k v] entries IHes]; constructor.
    + split; apply IH.
    + exact IHes.
Qed.

Lemma value_eqb_eq (a b : value) : value_eqb a b = true <-> a = b.
Proof.
  revert b. induction a as [ | x | x | x | xs IHxs | es IHes ]
    using value_nested_ind; intros [ | y | y | y | ys | fs ]; cbn;
    try (split; [discriminate | congruence]); try tauto.
  - rewrite Bool.eqb_true_iff. split; congruence.
  - rewrite Z.eqb_eq. split; congruence.
  - rewrite String.eqb_eq. split; congruence.
  - revert ys. induction IHxs as [|x xs Hx _ IH]; intros [|y ys];
      try (split; [discriminate | congruence]); try tauto.
    rewrite andb_true_iff, Hx, IH. split.
    + intros [-> Heq]. congruence.
    + intros Heq. inversion Heq; subst. auto.
  - revert fs. induction IHes as [|[k v] es [Hk Hv] _ IH]; intros [|[k' v'] fs];
      try (split; [discriminate | congruence]); try tauto.
    cbn in Hk, Hv. rewrite !andb_true_iff, Hk, Hv, IH. split.
    + intros [[-> ->] Heq]. congruence.
    + intros Heq. inversion Heq; subst. auto.
Qed.

Lemma value_eqb_refl (a : value) : value_eqb a a = true.
Proof. apply value_eqb_eq. reflexivity. Qed.

Lemma elem_of_dedup (v : value) (xs : list value) : v ∈ dedup xs <-> v ∈ xs.
Proof.
  induction xs as [|x xs IH]; [reflexivity|]. cbn [dedup].
  rewrite !elem_of_cons, list_elem_of_filter, IH.
  destruct (value_eqb x v) eqn:Hxv.
  - apply value_eqb_eq in Hxv. subst. tauto.
  - cbn. intuition congruence.
Qed.

Lemma NoDup_dedup (xs : list value) : NoDup (dedup xs).
Proof.
  induction xs as [|x xs IH]; cbn [dedup]; constructor.
  - rewrite list_elem_of_filter, value_eqb_refl. cbn. tauto.
  - apply NoDup_filter, IH.
Qed.

Lemma elem_of_non_null (v : value) (xs : list value) :
  v ∈ non_null xs <-> v ∈ xs /\ v <> VNull.
Proof.
  unfold non_null. rewrite list_elem_of_filter.
  destruct v; cbn; intuition congruence.
Qed.

(** [list_distinct] keeps each non-null element once and nothing else. *)
Lemma elem_of_list_distinct (v : value) (xs : list value) :
  v ∈ list_distinct xs <-> v ∈ xs /\ v <> VNull.
Proof. unfold list_distinct. rewrite elem_of_dedup. apply elem_of_non_null. Qed.

Lemma NoDup_list_distinct (xs : list value) : NoDup (list_distinct xs).
Proof. apply NoDup_dedup. Qed.

Lemma existsb_is_null (xs : list value) :
  existsb is_null xs = true <-> VNull ∈ xs.
Proof.
  induction xs as [|x xs IH]; cbn.
  - split; [discriminate|]. intros Hin. inversion Hin.
  - rewrite orb_true_iff, IH, elem_of_cons.
    destruct x; cbn; intuition congruence.
Qed.

(** [list_count(arg) < len(arg)] holds exactly when the array has a null
    element. *)
Lemma list_count_lt_len (xs : list value) :
  (list_count xs <? len xs) = existsb is_null xs.
Proof.
  unfold list_count, len, non_null.
  induction xs as [|x xs IH]; [reflexivity|].
  pose proof (length_filter (fun v => negb (is_null v)) xs) as Hle.
  destruct x; cbn [existsb is_null orb];
    rewrite ?filter_cons_True, ?filter_cons_False by (cbn; tauto);
    cbn [length].
  1: apply Z.ltb_lt; lia.
  all: rewrite <- IH; clear IH.
  all: match goal with
       | |- (?a <? ?b) = (?c <? ?d) =>
           destruct (Z.ltb_spec a b), (Z.ltb_spec c d); lia
       end.
Qed.

(** The expression both rules build over [arg], evaluated on an array:
    the distinct non-null elements, then one null when the array holds a
    null. *)
Lemma eval_distinct_with_sentinel (ρ : env) (arg : expr) (xs : list value) :
  eval ρ arg = Some (VList xs) ->
  eval ρ (if_ (Is arg NULL) NULL
            (Add (f "list_distinct" [arg])
                 (if_ (LT (f "list_count" [arg]) (f "len" [arg]))
                      (f "array" [NULL])
                      (f "array" [])))) =
  Some (VList (list_distinct xs ++
               if existsb is_null xs then [VNull] else [])).
Proof.
  intros Harg. unfold if_, f.
  rewrite (eval_If ρ _ _ _ false) by (apply (eval_Is_NULL ρ arg _ Harg)).
  apply eval_Add_list.
  - rewrite (eval_Func1 ρ _ _ _ Harg). reflexivity.
  - rewrite (eval_If ρ _ _ _ (list_count xs <? len xs)).
    + rewrite list_count_lt_len. destruct (existsb is_null xs); reflexivity.
    + apply eval_LT; [|apply eval_len; assumption].
      rewrite (eval_Func1 ρ _ _ _ Harg). reflexivity.
Qed.

Lemma eval_visit_ArrayDistinct_NULL (ρ : env) (arg : expr) :
  eval ρ arg = Some VNull -> eval ρ (visit_ArrayDistinct arg) = Some VNull.
Proof.
  intros Harg. unfold visit_ArrayDistinct, if_.
  rewrite (eval_If ρ _ _ _ true) by (apply (eval_Is_NULL ρ arg _ Harg)).
  reflexivity.
Qed.

(** Union is distinct over the concatenation of the two arrays. *)
Lemma eval_visit_ArrayUnion (ρ : env) (left right : expr) (xs ys : list value) :
  eval ρ left = Some (VList xs) ->
  eval ρ right = Some (VList ys) ->
  eval ρ (visit_ArrayUnion left right) =
  Some (VList (list_distinct (xs ++ ys) ++
               if existsb is_null (xs ++ ys) then [VNull] else [])).
Proof.
  intros Hl Hr. apply eval_distinct_with_sentinel.
  rewrite (eval_Func2 ρ _ _ _ _ _ Hl Hr). reflexivity.
Qed.

(** C1, as the code has it: on a non-null array the result is the
    distinct non-null elements followed by exactly one null when the
    array holds a null element (its count of non-null elements is below
    its length), and by nothing otherwise.  The distinct part has no
    null and no duplicate, and holds every non-null element. *)
Theorem visit_ArrayDistinct_sentinel (ρ : env) (arg : expr) (xs : list value) :
  eval ρ arg = Some (VList xs) ->
  eval ρ (visit_ArrayDistinct arg) =
    Some (VList (list_distinct xs ++
                 if existsb is_null xs then [VNull] else []))
  /\ (existsb is_null xs = true <-> VNull ∈ xs)
  /\ (existsb is_null xs = true <-> list_count xs < len xs)
  /\ NoDup (list_distinct xs)
  /\ (forall v, v ∈ list_distinct xs <-> v ∈ xs /\ v <> VNull).
Proof.
  intros Harg. split; [|split; [|split; [|split]]].
  - apply eval_distinct_with_sentinel. assumption.
  - apply existsb_is_null.
  - rewrite <- list_count_lt_len. apply Z.ltb_lt.
  - apply NoDup_list_distinct.
  - intros v. apply elem_of_list_distinct.
Qed.

(** The two instances the specification names. *)
Lemma visit_ArrayDistinct_sentinel_witness :
  eval (fun _ => None)
    (visit_ArrayDistinct
       (Func "array" [Literal_number 1; Literal_number 2; Literal_number 2;
                      Null; Null])) =
  Some (VList [VInt 1; VInt 2; VNull]).
Proof.
  exact (proj1 (visit_ArrayDistinct_sentinel (fun _ => None)
    (Func "array" [Literal_number 1; Literal_number 2; Literal_number 2;
                   Null; Null])
    [VInt 1; VInt 2; VInt 2; VNull; VNull] eq_refl)).
Defined.

Example visit_ArrayDistinct_no_null :
  eval (fun _ => None)
    (visit_ArrayDistinct
       (Func "array" [Literal_number 1; Literal_number 2; Literal_number 3])) =
  Some (VList [VInt 1; VInt 2; VInt 3]).
Proof. reflexivity. Qed.

(** The claim as stated fails on duplicates without a null: [[1, 2, 2]]
    has length 3 and two distinct elements, yet the rule appends no null,
    because it compares the length with the count of non-null elements,
    not with the deduplicated length. *)
Lemma distinct_sentinel_by_length_fails :
  eval (fun _ => None)
    (visit_ArrayDistinct
       (Func "array" [Literal_number 1; Literal_number 2; Literal_number 2])) =
  Some (VList [VInt 1; VInt 2])
  /\ (length (list_distinct [VInt 1; VInt 2; VInt 2]) <
      length [VInt 1; VInt 2; VInt 2])%nat
  /\ ~ distinct_sentinel_by_length.
Proof.
  split; [reflexivity|]. split; [vm_compute; lia|].
  intros Hclaim.
  specialize (Hclaim (fun _ => None)
    (Func "array" [Literal_number 1; Literal_number 2; Literal_number 2])
    [VInt 1; VInt 2; VInt 2] eq_refl).
  discriminate Hclaim.
Qed.

(** * Further properties of the rules *)

(** ** Casts and interval constructors *)

(** X1: a cast to an interval type succeeds exactly for the eight units
    that key [_INTERVAL_SUFFIXES], and then calls the constructor named
    after the unit's plural on the argument cast to [int32]; for quarter,
    week and nanosecond it fails with a [KeyError] on the unit's short
    name. *)
Theorem visit_Cast_interval_units
    (op_arg_dtype : dt.DataType) (arg : expr)
    (unit : IntervalUnit) (nullable : bool) :
  visit_Cast op_arg_dtype arg (dt.Interval unit nullable) =
  if bool_decide (unit ∈ [QUARTER; WEEK; NANOSECOND])
  then Raise (KeyError (short unit))
  else Ok (Func ("to_" ++ plural unit) [Cast arg (dt.Int32 true)]).
Proof. destruct unit; reflexivity. Qed.

(** X2: the cast rule never raises the unsupported-operation error: it
    fails only on an interval target, only for the three units missing
    from the table, and only with a [KeyError]. *)
Theorem visit_Cast_failure_is_KeyError
    (op_arg_dtype : dt.DataType) (arg : expr) (to : dt.DataType) (e : exn) :
  visit_Cast op_arg_dtype arg to = Raise e ->
  exists unit nullable,
    to = dt.Interval unit nullable
    /\ (unit = QUARTER \/ unit = WEEK \/ unit = NANOSECOND)
    /\ e = KeyError (short unit).
Proof.
  destruct to as [ | | | | | | | | | | | | | tz n | unit n ]; cbn;
    try discriminate;
    try (destruct (dt.is_integer op_arg_dtype); discriminate).
  intros Hraise. exists unit, n. split; [reflexivity|].
  destruct unit; vm_compute in Hraise; try discriminate Hraise;
    inversion Hraise; auto.
Qed.

Lemma visit_Cast_failure_is_KeyError_witness :
  exists unit nullable,
    dt.Interval WEEK false = dt.Interval unit nullable
    /\ (unit = QUARTER \/ unit = WEEK \/ unit = NANOSECOND)
    /\ KeyError "W" = KeyError (short unit).
Proof.
  exact (visit_Cast_failure_is_KeyError (dt.Int64 true) (Column "n")
           (dt.Interval WEEK false) (KeyError "W") eq_refl).
Defined.

(** X3: the two interval constructors compared unit by unit.  For the
    eight units of the table both call the same [to_<plural>] function.
    Week and quarter are accepted by interval-from-integer (a week as
    seven days) and rejected by the cast.  Nanosecond is rejected by
    both, with different exceptions. *)
Theorem interval_paths_compared
    (dialect : string) (op_arg_dtype : dt.DataType) (arg : expr)
    (unit : IntervalUnit) (nullable : bool) :
  (unit <> QUARTER -> unit <> WEEK -> unit <> NANOSECOND ->
     visit_IntervalFromInteger dialect arg unit =
       Ok (Func ("to_" ++ plural unit) [arg])
     /\ visit_Cast op_arg_dtype arg (dt.Interval unit nullable) =
          Ok (Func ("to_" ++ plural unit) [Cast arg dt.int32]))
  /\ (unit = WEEK ->
        visit_IntervalFromInteger dialect arg unit =
          Ok (Func "to_days" [Mul arg (Literal_number 7)])
        /\ visit_Cast op_arg_dtype arg (dt.Interval unit nullable) =
             Raise (KeyError "W"))
  /\ (unit = QUARTER ->
        visit_IntervalFromInteger dialect arg unit =
          Ok (Func "to_quarters" [arg])
        /\ visit_Cast op_arg_dtype arg (dt.Interval unit nullable) =
             Raise (KeyError "Q"))
  /\ (unit = NANOSECOND ->
        is_unsupported (visit_IntervalFromInteger dialect arg unit) = true
        /\ visit_Cast op_arg_dtype arg (dt.Interval unit nullable) =
             Raise (KeyError "ns")).
Proof.
  repeat split; try (subst unit; reflexivity);
    destruct unit; try congruence; reflexivity.
Qed.

Lemma interval_paths_compared_witness :
  (visit_IntervalFromInteger "duckdb" (Column "n") HOUR =
     Ok (Func "to_hours" [Column "n"])
   /\ visit_Cast (dt.Int64 true) (Column "n") (dt.Interval HOUR true) =
        Ok (Func "to_hours" [Cast (Column "n") dt.int32]))
  /\ (visit_IntervalFromInteger "duckdb" (Column "n") WEEK =
        Ok (Func "to_days" [Mul (Column "n") (Literal_number 7)])
      /\ visit_Cast (dt.Int64 true) (Column "n") (dt.Interval WEEK true) =
           Raise (KeyError "W")).
Proof.
  split.
  - apply (interval_paths_compared "duckdb" (dt.Int64 true) (Column "n")
             HOUR true); discriminate.
  - apply (interval_paths_compared "duckdb" (dt.Int64 true) (Column "n")
             WEEK true). reflexivity.
Defined.

(** ** Literal rendering *)

(** X4: literal rendering raises in two situations only: for a
    nanosecond interval type, with the unsupported-operation error, and
    for a numeric literal on which [math.isfinite] itself raises, with
    that error ([ValueError] on a signalling-NaN decimal, [OverflowError]
    on an int too large for a float).  Otherwise it returns, and it
    answers [None] (no special rendering) exactly when the type passes
    none of the rule's six type tests. *)
Theorem visit_NonNullLiteral_outcomes
    (dialect : string) (dtype : dt.DataType) (value : py.value_of dtype) :
  match visit_NonNullLiteral dialect dtype value with
  | Raise e =>
      ((exists nullable, dtype = dt.Interval NANOSECOND nullable)
       /\ e = UnsupportedOperationError
                (dialect ++ " doesn't support nanosecond interval resolutions"))
      \/ (exists x,
            literal_number dtype value = Some x
            /\ py.isfinite x = Raise e
            /\ ((e = ValueError /\ exists repr, x = py.PySignalingNaN repr)
                \/ (e = OverflowError
                    /\ exists n, x = py.PyInt n
                                 /\ 2 ^ 1024 - 2 ^ 970 <= Z.abs n)))
  | Ok rendered =>
      (forall nullable, dtype <> dt.Interval NANOSECOND nullable)
      /\ (forall x, literal_number dtype value = Some x ->
                    exists finite, py.isfinite x = Ok finite)
      /\ (rendered = None <->
          dt.is_interval dtype || dt.is_uuid dtype || dt.is_binary dtype
          || dt.is_numeric dtype || dt.is_time dtype
          || dt.is_timestamp dtype = false)
  end.
Proof.
  assert (forall x e, py.isfinite x = Raise e ->
            (e = ValueError /\ exists repr, x = py.PySignalingNaN repr)
            \/ (e = OverflowError
                /\ exists n, x = py.PyInt n
                             /\ 2 ^ 1024 - 2 ^ 970 <= Z.abs n)) as Hraise.
  { intros [n | r b | r b | r] e; cbn; try discriminate.
    - destruct (Z.ltb_spec (Z.abs n) (2 ^ 1024 - 2 ^ 970)); [discriminate|].
      intros [= <-]. right. eauto.
    - intros [= <-]. left. eauto. }
  destruct dtype as [ | | | | | | | | | | | | | tz n | unit n ];
    cbn in value |- *;
    try (destruct (py.isfinite value) as [finite|e] eqn:Hfin; cbn;
         [destruct (negb finite);
          (split; [discriminate|]);
          (split; [intros x [= <-]; eauto | split; discriminate])
         |right; exists value; eauto]);
    try (destruct unit; cbn);
    try (left; split; [eexists|]; reflexivity);
    repeat match goal with
           | |- _ /\ _ => split
           | |- _ <-> _ => split
           | |- forall _, _ => intro
           end;
    try discriminate; try reflexivity; eauto.
Qed.

Lemma visit_NonNullLiteral_signalling_NaN (dialect : string) (nullable : bool) :
  visit_NonNullLiteral dialect (dt.Decimal nullable) (py.PySignalingNaN "sNaN")
  = Raise ValueError.
Proof. reflexivity. Qed.

(** X5: a non-finite numeric literal is rendered as a cast of the text
    [str(value)]; for a decimal type the cast goes to [float32], for any
    other numeric type to the type itself.  Across all branches, no
    literal is ever a string cast to a decimal type. *)
Theorem literal_string_never_cast_to_decimal
    (dialect : string) (dtype : dt.DataType) (value : py.value_of dtype)
    (s : string) (to : dt.DataType) :
  visit_NonNullLiteral dialect dtype value =
    Ok (Some (Cast (Literal_string s) to)) ->
  dt.is_decimal to = false
  /\ (dt.is_decimal dtype = true -> to = dt.float32)
  /\ (dt.is_decimal dtype = false -> to = dtype).
Proof.
  assert (forall t : dt.DataType,
            dt.is_decimal t = false ->
            dt.is_decimal t = false
            /\ (dt.is_decimal t = true -> t = dt.float32)
            /\ (dt.is_decimal t = false -> t = t)) as Hsame
    by (intros t Ht; rewrite Ht; repeat split; discriminate).
  destruct dtype as [ | | | | | | | | | | | | | tz n | unit n ];
    cbn in value |- *; unfold cast, f, make_timestamp_call;
    try (destruct (py.isfinite value) as [[|]|]; cbn [bind negb]);
    try (destruct unit; cbn);
    try (destruct tz);
    try discriminate;
    try (intros [= <- <-]; apply Hsame; reflexivity);
    try (destruct value; discriminate).
  intros [= <- <-]. repeat split; discriminate.
Qed.

Lemma literal_string_never_cast_to_decimal_witness :
  dt.is_decimal dt.float32 = false
  /\ (dt.is_decimal (dt.Decimal true) = true -> dt.float32 = dt.float32)
  /\ (dt.is_decimal (dt.Decimal true) = false -> dt.float32 = dt.Decimal true).
Proof.
  exact (literal_string_never_cast_to_decimal "duckdb" (dt.Decimal true)
           (py.PyDecimal "Infinity" false) "Infinity" dt.float32 eq_refl).
Defined.

Lemma unhex_hexdigit (d : N) :
  (d < 16)%N ->
  unhex (default "0"%char (String.get (N.to_nat d) "0123456789abcdef")) =
  Some d.
Proof.
  intros Hd.
  assert (d = 0 \/ d = 1 \/ d = 2 \/ d = 3 \/ d = 4 \/ d = 5 \/ d = 6
          \/ d = 7 \/ d = 8 \/ d = 9 \/ d = 10 \/ d = 11 \/ d = 12
          \/ d = 13 \/ d = 14 \/ d = 15)%N as Hcases by lia.
  repeat (destruct Hcases as [-> | Hcases]); try subst d; reflexivity.
Qed.

Lemma blob_of_escapes_format (b : N) (rest : string) :
  (b < 256)%N ->
  blob_of_escapes (py.format_x02 b ++ rest) =
  cons b <$> blob_of_escapes rest.
Proof.
  intros Hb.
  change (py.format_x02 b ++ rest)
    with (String.String "\"%char (String.String "x"%char
            (String.String
               (default "0"%char
                  (String.get (N.to_nat (b / 16)) "0123456789abcdef"))
               (String.String
                  (default "0"%char
                     (String.get (N.to_nat (b mod 16)) "0123456789abcdef"))
                  rest)))).
  cbn [blob_of_escapes Ascii.eqb Bool.eqb andb].
  rewrite !unhex_hexdigit;
    [|apply N.mod_lt; discriminate
     |apply N.Div0.div_lt_upper_bound; exact Hb].
  pose proof (N.div_mod b 16 ltac:(discriminate)) as Hdm.
  destruct (blob_of_escapes rest); [|reflexivity].
  cbn. rewrite <- Hdm. reflexivity.
Qed.

Lemma blob_of_escapes_join (bs : list N) :
  Forall (fun b => (b < 256)%N) bs ->
  blob_of_escapes (py.join (map py.format_x02 bs)) = Some bs.
Proof.
  induction 1 as [|b bs Hb _ IH]; [reflexivity|].
  cbn [map py.join foldr]. rewrite blob_of_escapes_format by exact Hb.
  unfold py.join in IH. rewrite IH. reflexivity.
Qed.

(** X6: a binary literal is rendered as a cast to the binary type of a
    text from which the bytes can be read back: four characters per byte
    (a backslash, an x and two lower-case hex digits), so two different
    byte strings never render alike. *)
Theorem binary_literal_round_trip
    (dialect : string) (nullable : bool) (value : list N) :
  Forall (fun b => (b < 256)%N) value ->
  exists text,
    visit_NonNullLiteral dialect (dt.Binary nullable) value =
      Ok (Some (Cast (Literal_string text) (dt.Binary nullable)))
    /\ blob_of_escapes text = Some value
    /\ String.length text = (4 * length value)%nat.
Proof.
  intros Hbytes. eexists. split; [reflexivity|]. split.
  - apply blob_of_escapes_join. exact Hbytes.
  - clear Hbytes. induction value as [|b bs IH]; [reflexivity|].
    cbn [map py.join foldr]. unfold py.join in IH.
    change (String.length (py.format_x02 b ++ foldr String.append ""
                             (map py.format_x02 bs)))
      with (S (S (S (S (String.length
                          (foldr String.append "" (map py.format_x02 bs))))))).
    rewrite IH. cbn [length]. lia.
Qed.

Lemma binary_literal_round_trip_witness :
  exists text,
    visit_NonNullLiteral "duckdb" (dt.Binary true) [0; 255; 16]%N =
      Ok (Some (Cast (Literal_string text) (dt.Binary true)))
    /\ blob_of_escapes text = Some [0; 255; 16]%N
    /\ String.length text = (4 * length [0; 255; 16]%N)%nat.
Proof.
  apply (binary_literal_round_trip "duckdb" true [0; 255; 16]%N).
  repeat constructor.
Defined.

(** X7: interval literals render unambiguously.  For units other than
    nanosecond the rendering is the decimal text of the value with the
    upper-cased singular unit name, and two literals render alike only
    when they have the same value and the same unit (nullability is not
    rendered). *)
Theorem interval_literal_injective
    (dialect : string) (unit unit' : IntervalUnit) (nullable nullable' : bool)
    (value value' : Z) :
  unit <> NANOSECOND ->
  unit' <> NANOSECOND ->
  visit_NonNullLiteral dialect (dt.Interval unit nullable) value =
  visit_NonNullLiteral dialect (dt.Interval unit' nullable') value' ->
  value = value' /\ unit = unit'.
Proof.
  intros Hu Hu'.
  rewrite !visit_NonNullLiteral_interval_other by assumption.
  intros [= Hvalue Hunit]. split.
  - apply (inj pretty). exact Hvalue.
  - clear -Hunit. destruct unit, unit'; try reflexivity;
      vm_compute in Hunit; discriminate Hunit.
Qed.

Lemma interval_literal_injective_witness :
  visit_NonNullLiteral "duckdb" (dt.Interval DAY true) 3 =
    Ok (Some (SgeInterval (Literal_string "3") "DAY"))
  /\ (3 = 3 /\ DAY = DAY).
Proof.
  split; [reflexivity|].
  apply (interval_literal_injective "duckdb" DAY DAY true false 3 3);
    [discriminate | discriminate | reflexivity].
Defined.

(** ** Timestamp constructors *)

(** X8: the timestamp literal rule and the timestamp-from-components
    rule pick the constructor the same way: without a timezone,
    [make_timestamp] on six arguments; with one, [make_timestamptz] on
    seven, the timezone text last.  The first five arguments of a literal
    are its integer components. *)
Theorem timestamp_constructors_agree
    (dialect : string) (nullable : bool) (tz : option string)
    (value : py.datetime)
    (year month day hours minutes seconds : expr) :
  exists lit_seconds,
    let name := match tz with
                | Some _ => "make_timestamptz"
                | None => "make_timestamp"
                end in
    let zone := match tz with
                | Some timezone => [Literal_string timezone]
                | None => []
                end in
    visit_NonNullLiteral dialect (dt.Timestamp tz nullable) value =
      Ok (Some (Func name
                  ([Literal_number (py.year value);
                    Literal_number (py.month value);
                    Literal_number (py.day value);
                    Literal_number (py.hour value);
                    Literal_number (py.minute value);
                    lit_seconds] ++ zone)))
    /\ visit_TimestampFromYMDHMS tz year month day hours minutes seconds =
         Func name ([year; month; day; hours; minutes; seconds] ++ zone)
    /\ length ([year; month; day; hours; minutes; seconds] ++ zone) =
         match tz with Some _ => 7%nat | None => 6%nat end.
Proof.
  eexists. destruct tz; cbn; repeat split; reflexivity.
Qed.

(** ** Indexing and slicing against Python's sequence behaviour *)

(** X9: on an array and an integer index whose shifted position fits the
    index's integer type, the index rule yields what Python's [xs[i]]
    yields, with NULL where Python raises: the element at [i] for
    [0 <= i < L], the element at [L + i] for [- L <= i < 0], and NULL for
    every index outside [- L, L).  The shift is added in the index type:
    for a non-negative index at the type's maximum it does not fit, and
    the expression has no value (the engine raises Out of Range). *)
Theorem visit_ArrayIndex_python_semantics
    (ρ : env) (dtype : dt.DataType) (arg index : expr)
    (xs : list value) (i : Z) :
  dt.is_integer dtype = true ->
  eval ρ arg = Some (VList xs) ->
  eval ρ index = Some (VInt i) ->
  let shifted := if 0 <=? i then i + 1 else i in
  (dt.in_range dtype shifted = true ->
     eval ρ (visit_ArrayIndex dtype arg index) = Some (py_getitem xs i))
  /\ (i < - len xs \/ len xs <= i -> py_getitem xs i = VNull)
  /\ (int_type_of index = None ->
      dt.in_range dtype shifted = false ->
      eval ρ (visit_ArrayIndex dtype arg index) = None).
Proof.
  intros Hty Harg Hidx shifted. unfold shifted.
  split; [|split].
  - intros Hfit.
    rewrite (eval_visit_ArrayIndex ρ dtype arg index xs i Hty Harg Hidx Hfit).
    unfold py_getitem, list_extract, len. set (L := Z.of_nat (length xs)).
    f_equal. destruct (Z.leb_spec 0 i) as [Hpos|Hneg].
    + replace (0 <? i + 1) with true by lia. cbn [andb].
      replace (i + 1 - 1) with i by lia.
      destruct (Z.ltb_spec i L) as [Hin|Hout]; [reflexivity|].
      replace (- L <=? i) with true by lia.
      replace (i <? 0) with false by lia. cbn [andb].
      rewrite lookup_ge_None_2 by lia. reflexivity.
    + replace (0 <? i) with false by lia. cbn [andb].
      replace (i <? 0) with true by lia.
      rewrite andb_true_r. cbn [andb].
      destruct (Z.leb_spec 0 (L + i)), (Z.leb_spec (- L) i);
        try lia; reflexivity.
  - unfold py_getitem, len. set (L := Z.of_nat (length xs)).
    intros [Hlow|Hhigh].
    + replace (0 <=? i) with false by lia.
      replace (- L <=? i) with false by lia. reflexivity.
    + replace (i <? L) with false by lia.
      replace (i <? 0) with false by lia.
      rewrite !andb_false_r. reflexivity.
  - intros Hplain Hout.
    apply (eval_visit_ArrayIndex_overflow ρ dtype arg index (VList xs) i);
      assumption.
Qed.

Lemma visit_ArrayIndex_python_semantics_witness :
  eval (fun _ => None)
    (visit_ArrayIndex dt.int32
       (Func "array" [Literal_number 10; Literal_number 20; Literal_number 30])
       (Literal_number (-3))) = Some (VInt 10)
  /\ eval (fun _ => None)
       (visit_ArrayIndex dt.int32
          (Func "array" [Literal_number 10; Literal_number 20; Literal_number 30])
          (Literal_number 3)) = Some VNull
  /\ eval (fun _ => None)
       (visit_ArrayIndex (dt.Int8 true)
          (Func "array" [Literal_number 10; Literal_number 20; Literal_number 30])
          (Literal_number 127)) = None.
Proof.
  split; [|split].
  - exact (proj1 (visit_ArrayIndex_python_semantics (fun _ => None) dt.int32
      (Func "array" [Literal_number 10; Literal_number 20; Literal_number 30])
      (Literal_number (-3)) [VInt 10; VInt 20; VInt 30] (-3)
      eq_refl eq_refl eq_refl) eq_refl).
  - exact (proj1 (visit_ArrayIndex_python_semantics (fun _ => None) dt.int32
      (Func "array" [Literal_number 10; Literal_number 20; Literal_number 30])
      (Literal_number 3) [VInt 10; VInt 20; VInt 30] 3
      eq_refl eq_refl eq_refl) eq_refl).
  - exact (proj2 (proj2
      (visit_ArrayIndex_python_semantics (fun _ => None) (dt.Int8 true)
         (Func "array" [Literal_number 10; Literal_number 20; Literal_number 30])
         (Literal_number 127) [VInt 10; VInt 20; VInt 30] 127
         eq_refl eq_refl eq_refl)) eq_refl eq_refl).
Defined.

Lemma take_capped (xs : list value) (n : Z) :
  take (Z.to_nat n) xs = take (Z.to_nat (Z.min n (Z.of_nat (length xs)))) xs.
Proof.
  destruct (Z.le_gt_cases n (Z.of_nat (length xs))) as [Hle|Hgt].
  - rewrite Z.min_l by lia. reflexivity.
  - rewrite Z.min_r by lia. rewrite Nat2Z.id.
    rewrite !take_ge by lia. reflexivity.
Qed.

Lemma slice_window_python (xs : list value) (i j : option Z) :
  drop (Z.to_nat (slice_begin (len xs) i))
       (take (Z.to_nat (slice_end (len xs) j)) xs) =
  py_slice xs i j.
Proof.
  unfold py_slice, len. set (L := Z.of_nat (length xs)).
  assert (0 <= L) as HL by (unfold L; lia).
  f_equal.
  - f_equal. destruct i as [i|]; cbn; [|reflexivity].
    unfold normalized_index.
    destruct (Z.leb_spec 0 i), (Z.ltb_spec i 0); lia.
  - destruct j as [j|]; cbn; [|reflexivity].
    unfold normalized_index.
    destruct (Z.leb_spec 0 j), (Z.ltb_spec j 0); try lia.
    + apply take_capped.
    + reflexivity.
Qed.

(** X10: on an array and integer (or omitted) bounds, the slice rule
    yields what Python's [xs[start:stop]] yields: each bound is counted
    from the end when negative and clipped into [0, L], and the elements
    from the lower bound up to, not including, the upper bound are kept.
    The result is never longer than the array. *)
Theorem visit_ArraySlice_python_semantics
    (ρ : env) (arg : expr) (xs : list value)
    (start stop : option expr) (i j : option Z) :
  eval ρ arg = Some (VList xs) ->
  bound_is ρ start i ->
  bound_is ρ stop j ->
  eval ρ (visit_ArraySlice arg start stop) = Some (VList (py_slice xs i j))
  /\ (length (py_slice xs i j) <= length xs)%nat.
Proof.
  intros Harg Hstart Hstop. split.
  - rewrite (eval_visit_ArraySlice ρ arg xs Harg start stop i j Hstart Hstop).
    rewrite slice_window_python. reflexivity.
  - unfold py_slice. rewrite length_drop, length_take. lia.
Qed.

Lemma visit_ArraySlice_python_semantics_witness :
  eval (fun _ => None)
    (visit_ArraySlice
       (Func "array" [Literal_number 10; Literal_number 20;
                      Literal_number 30; Literal_number 40])
       (Some (Literal_number (-3))) (Some (Literal_number 9))) =
  Some (VList [VInt 20; VInt 30; VInt 40]).
Proof.
  exact (proj1 (visit_ArraySlice_python_semantics (fun _ => None)
    (Func "array" [Literal_number 10; Literal_number 20;
                   Literal_number 30; Literal_number 40])
    [VInt 10; VInt 20; VInt 30; VInt 40]
    (Some (Literal_number (-3))) (Some (Literal_number 9))
    (Some (-3)) (Some 9) eq_refl eq_refl eq_refl)).
Defined.

(** X11: whatever integer bounds a slice is given, the positions handed
    to [list_slice] stay in the range where it counts from the front: the
    begin position lies in [1, L + 1] and the end position is never
    negative. *)
Theorem visit_ArraySlice_positions_in_range
    (ρ : env) (arg : expr) (xs : list value)
    (start stop : option expr) (i j : option Z) :
  eval ρ arg = Some (VList xs) ->
  bound_is ρ start i ->
  bound_is ρ stop j ->
  exists b e nb ne,
    visit_ArraySlice arg start stop = Func "list_slice" [arg; b; e]
    /\ eval ρ b = Some (VInt nb)
    /\ eval ρ e = Some (VInt ne)
    /\ 1 <= nb <= len xs + 1
    /\ 0 <= ne.
Proof.
  intros Harg Hstart Hstop.
  destruct (eval_slice_begin ρ arg xs Harg start i Hstart) as (b & Hshape & Hb).
  exists b. eexists. exists (slice_begin (len xs) i + 1), (slice_end (len xs) j).
  split; [apply Hshape|]. split; [exact Hb|].
  split; [apply (eval_slice_end ρ arg xs Harg stop j Hstop)|].
  pose proof (slice_begin_nonneg xs i). pose proof (slice_end_nonneg xs j).
  pose proof (len_nonneg xs).
  split; [|assumption]. split; [lia|].
  destruct i as [i|]; cbn; lia.
Qed.

Lemma visit_ArraySlice_positions_in_range_witness :
  exists b e nb ne,
    visit_ArraySlice (Func "array" [Literal_number 10; Literal_number 20])
      (Some (Literal_number 7)) (Some (Literal_number (-5))) =
      Func "list_slice"
        [Func "array" [Literal_number 10; Literal_number 20]; b; e]
    /\ eval (fun _ => None) b = Some (VInt nb)
    /\ eval (fun _ => None) e = Some (VInt ne)
    /\ 1 <= nb <= len [VInt 10; VInt 20] + 1
    /\ 0 <= ne.
Proof.
  exact (visit_ArraySlice_positions_in_range (fun _ => None)
    (Func "array" [Literal_number 10; Literal_number 20])
    [VInt 10; VInt 20]
    (Some (Literal_number 7)) (Some (Literal_number (-5)))
    (Some 7) (Some (-5)) eq_refl eq_refl eq_refl).
Defined.

(** ** Distinct and union as set operations *)

Lemma filter_none (P : value -> Prop) `{forall v, Decision (P v)}
    (l : list value) :
  (forall v, v ∈ l -> ~ P v) -> filter P l = [].
Proof.
  induction l as [|x l IH]; intros Hall; [reflexivity|].
  rewrite filter_cons_False by (apply Hall; left).
  apply IH. intros v Hv. apply Hall. right. exact Hv.
Qed.


(** The list both rules produce from an array: no element twice, and
    exactly the elements of the array, a null among them when the array
    has one. *)
Lemma distinct_with_sentinel_set (xs : list value) :
  NoDup (list_distinct xs ++ if existsb is_null xs then [VNull] else [])
  /\ (forall v,
        v ∈ (list_distinct xs ++
             if existsb is_null xs then [VNull] else [])%list
        <-> v ∈ xs).
Proof.
  split.
  - apply NoDup_app. split; [apply NoDup_list_distinct|]. split.
    + intros v Hv Hs. apply elem_of_list_distinct in Hv as [_ Hv].
      destruct (existsb is_null xs); [|inversion Hs].
      apply list_elem_of_singleton in Hs. congruence.
    + destruct (existsb is_null xs); [apply NoDup_singleton|constructor].
  - intros v. rewrite elem_of_app, elem_of_list_distinct.
    pose proof (existsb_is_null xs) as Hnull.
    destruct (existsb is_null xs).
    + rewrite list_elem_of_singleton. split.
      * intros [[Hv _]| ->]; [exact Hv | apply Hnull; reflexivity].
      * intros Hv. destruct (decide (is_null v = true)) as [Hn|Hn].
        -- right. destruct v; cbn in Hn; congruence.
        -- left. split; [exact Hv|]. intros ->. apply Hn. reflexivity.
    + split.
      * intros [[Hv _]|Hv]; [exact Hv | inversion Hv].
      * intros Hv. left. split; [exact Hv|]. intros ->.
        apply Hnull in Hv. discriminate Hv.
Qed.

(** X12: distinct is a set operation on a non-null array: the result has
    no element twice (a null counts as an element), holds exactly the
    elements of the array, and is never longer than the array. *)
Theorem visit_ArrayDistinct_is_a_set
    (ρ : env) (arg : expr) (xs : list value) :
  eval ρ arg = Some (VList xs) ->
  exists ys,
    eval ρ (visit_ArrayDistinct arg) = Some (VList ys)
    /\ NoDup ys
    /\ (forall v, v ∈ ys <-> v ∈ xs)
    /\ (length ys <= length xs)%nat.
Proof.
  intros Harg. eexists. split; [apply eval_distinct_with_sentinel, Harg|].
  destruct (distinct_with_sentinel_set xs) as [Hnd Hmem].
  split; [exact Hnd|]. split; [exact Hmem|].
  apply submseteq_length, NoDup_submseteq; [exact Hnd|].
  intros v Hv. apply Hmem. exact Hv.
Qed.

Lemma visit_ArrayDistinct_is_a_set_witness :
  exists ys,
    eval (fun _ => None)
      (visit_ArrayDistinct
         (Func "array" [Null; Literal_number 2; Null; Literal_number 2])) =
      Some (VList ys)
    /\ NoDup ys
    /\ (forall v, v ∈ ys <-> v ∈ [VNull; VInt 2; VNull; VInt 2])
    /\ (length ys <= length [VNull; VInt 2; VNull; VInt 2])%nat.
Proof.
  exact (visit_ArrayDistinct_is_a_set (fun _ => None)
    (Func "array" [Null; Literal_number 2; Null; Literal_number 2])
    [VNull; VInt 2; VNull; VInt 2] eq_refl).
Defined.

(** X13: union is set union on two non-null arrays: the result has no
    element twice and holds exactly the elements of either array. *)
Theorem visit_ArrayUnion_is_set_union
    (ρ : env) (left right : expr) (xs ys : list value) :
  eval ρ left = Some (VList xs) ->
  eval ρ right = Some (VList ys) ->
  exists zs,
    eval ρ (visit_ArrayUnion left right) = Some (VList zs)
    /\ NoDup zs
    /\ (forall v, v ∈ zs <-> v ∈ xs \/ v ∈ ys).
Proof.
  intros Hl Hr. eexists. split; [apply eval_visit_ArrayUnion; eassumption|].
  destruct (distinct_with_sentinel_set (xs ++ ys)) as [Hnd Hmem].
  split; [exact Hnd|]. intros v. rewrite Hmem. apply elem_of_app.
Qed.

Lemma visit_ArrayUnion_is_set_union_witness :
  exists zs,
    eval (fun _ => None)
      (visit_ArrayUnion (Func "array" [Literal_number 1; Null])
                        (Func "array" [Literal_number 1; Literal_number 3])) =
      Some (VList zs)
    /\ NoDup zs
    /\ (forall v, v ∈ zs <->
                  v ∈ [VInt 1; VNull] \/ v ∈ [VInt 1; VInt 3]).
Proof.
  exact (visit_ArrayUnion_is_set_union (fun _ => None)
    (Func "array" [Literal_number 1; Null])
    (Func "array" [Literal_number 1; Literal_number 3])
    [VInt 1; VNull] [VInt 1; VInt 3] eq_refl eq_refl).
Defined.

Lemma eval_visit_ArrayDistinct (ρ : env) (arg : expr) (xs : list value) :
  eval ρ arg = Some (VList xs) ->
  eval ρ (visit_ArrayDistinct arg) =
  Some (VList (list_distinct xs ++
               if existsb is_null xs then [VNull] else [])).
Proof. apply eval_distinct_with_sentinel. Qed.

(** X14: distinct is idempotent as a set operation: applied to its own
    result on a non-null array it yields a rearrangement of that result,
    the same elements each once, the single null included.  (The order of
    the elements is the engine's own and is not compared.) *)
Theorem visit_ArrayDistinct_idempotent
    (ρ : env) (arg : expr) (xs : list value) :
  eval ρ arg = Some (VList xs) ->
  exists once twice,
    eval ρ (visit_ArrayDistinct arg) = Some (VList once)
    /\ eval ρ (visit_ArrayDistinct (visit_ArrayDistinct arg)) =
       Some (VList twice)
    /\ twice ≡ₚ once.
Proof.
  intros Harg.
  pose proof (eval_visit_ArrayDistinct ρ arg xs Harg) as Honce.
  pose proof (eval_visit_ArrayDistinct ρ (visit_ArrayDistinct arg) _ Honce)
    as Htwice.
  eexists. eexists. split; [exact Honce|]. split; [exact Htwice|].
  match type of Honce with
  | _ = Some (VList ?ys) =>
      destruct (distinct_with_sentinel_set xs) as [Hnd1 Hmem1];
      destruct (distinct_with_sentinel_set ys) as [Hnd2 Hmem2]
  end.
  apply NoDup_Permutation; [exact Hnd2 | exact Hnd1|].
  intros v. rewrite Hmem2. reflexivity.
Qed.

Lemma visit_ArrayDistinct_idempotent_witness :
  exists once twice,
    eval (fun _ => None)
      (visit_ArrayDistinct
         (Func "array" [Literal_number 2; Null; Literal_number 2; Null])) =
      Some (VList once)
    /\ eval (fun _ => None)
         (visit_ArrayDistinct (visit_ArrayDistinct
            (Func "array" [Literal_number 2; Null; Literal_number 2; Null]))) =
       Some (VList twice)
    /\ twice ≡ₚ once.
Proof.
  exact (visit_ArrayDistinct_idempotent (fun _ => None)
    (Func "array" [Literal_number 2; Null; Literal_number 2; Null])
    [VInt 2; VNull; VInt 2; VNull] eq_refl).
Defined.

(** X15: union absorbs a subset: when every element of the right array
    already occurs in the left one, the union is a rearrangement of the
    distinct of the left array, the same elements each once.  In
    particular the union of an array with itself has exactly the elements
    of its distinct.  (The order of the elements is the engine's own and
    is not compared.) *)
Theorem visit_ArrayUnion_absorbs_subset
    (ρ : env) (left right : expr) (xs ys : list value) :
  eval ρ left = Some (VList xs) ->
  eval ρ right = Some (VList ys) ->
  (forall v, v ∈ ys -> v ∈ xs) ->
  exists union distinct,
    eval ρ (visit_ArrayUnion left right) = Some (VList union)
    /\ eval ρ (visit_ArrayDistinct left) = Some (VList distinct)
    /\ union ≡ₚ distinct.
Proof.
  intros Hl Hr Hsub.
  eexists. eexists.
  split; [exact (eval_visit_ArrayUnion ρ left right xs ys Hl Hr)|].
  split; [exact (eval_visit_ArrayDistinct ρ left xs Hl)|].
  destruct (distinct_with_sentinel_set (xs ++ ys)) as [Hnd1 Hmem1].
  destruct (distinct_with_sentinel_set xs) as [Hnd2 Hmem2].
  apply NoDup_Permutation; [exact Hnd1 | exact Hnd2|].
  intros v. rewrite Hmem1, Hmem2, elem_of_app. split; [|tauto].
  intros [Hv|Hv]; [exact Hv | apply Hsub, Hv].
Qed.

Lemma visit_ArrayUnion_absorbs_subset_witness :
  exists union distinct,
    eval (fun _ => None)
      (visit_ArrayUnion
         (Func "array" [Literal_number 1; Null; Literal_number 2])
         (Func "array" [Literal_number 2; Literal_number 1])) =
      Some (VList union)
    /\ eval (fun _ => None)
         (visit_ArrayDistinct
            (Func "array" [Literal_number 1; Null; Literal_number 2])) =
       Some (VList distinct)
    /\ union ≡ₚ distinct.
Proof.
  apply (visit_ArrayUnion_absorbs_subset (fun _ => None)
    (Func "array" [Literal_number 1; Null; Literal_number 2])
    (Func "array" [Literal_number 2; Literal_number 1])
    [VInt 1; VNull; VInt 2] [VInt 2; VInt 1] eq_refl eq_refl).
  intros v Hv. apply list_elem_of_In in Hv. apply list_elem_of_In.
  cbn in Hv |- *. tauto.
Defined.

(** X16: the edge inputs of distinct: a NULL array stays NULL, the empty
    array stays empty, and a non-empty array holding nothing but nulls
    becomes the one-element array of a single null. *)
Theorem visit_ArrayDistinct_edges (ρ : env) (arg : expr) :
  (eval ρ arg = Some VNull ->
     eval ρ (visit_ArrayDistinct arg) = Some VNull)
  /\ (eval ρ arg = Some (VList []) ->
        eval ρ (visit_ArrayDistinct arg) = Some (VList []))
  /\ (forall xs,
        eval ρ arg = Some (VList xs) ->
        xs <> [] ->
        (forall v, v ∈ xs -> v = VNull) ->
        eval ρ (visit_ArrayDistinct arg) = Some (VList [VNull])).
Proof.
  split; [apply eval_visit_ArrayDistinct_NULL|]. split.
  - intros Harg. apply (eval_visit_ArrayDistinct ρ arg [] Harg).
  - intros xs Harg Hne Hall.
    rewrite (eval_visit_ArrayDistinct ρ arg xs Harg). do 2 f_equal.
    replace (list_distinct xs) with (@nil value).
    + replace (existsb is_null xs) with true; [reflexivity|].
      symmetry. apply existsb_is_null.
      destruct xs as [|x xs]; [congruence|].
      rewrite <- (Hall x) at 1 by left. left.
    + symmetry. unfold list_distinct, non_null.
      rewrite filter_none; [reflexivity|].
      intros v Hv Hnn. rewrite (Hall v Hv) in Hnn. exact Hnn.
Qed.

Lemma visit_ArrayDistinct_edges_witness :
  eval (fun _ => None) (visit_ArrayDistinct (Func "array" [Null; Null])) =
  Some (VList [VNull]).
Proof.
  apply (proj2 (proj2 (visit_ArrayDistinct_edges (fun _ => None)
           (Func "array" [Null; Null]))) [VNull; VNull]).
  - reflexivity.
  - discriminate.
  - intros v Hv. apply list_elem_of_In in Hv. cbn in Hv.
    destruct Hv as [<-|[<-|[]]]; reflexivity.
Defined.

(** ** Concatenation *)

Lemma eval_fold_list_concat
    (ρ : env) (rest : list expr) (lists : list (list value))
    (acc : expr) (acc_list : list value) :
  eval ρ acc = Some (VList acc_list) ->
  Forall2 (fun e l => eval ρ e = Some (VList l)) rest lists ->
  eval ρ (fold_left (fun a b => f "list_concat" [a; b]) rest acc) =
  Some (VList (acc_list ++ concat lists)).
Proof.
  intros Hacc Hrest. revert acc acc_list Hacc.
  induction Hrest as [|e l rest lists He _ IH]; intros acc acc_list Hacc.
  - cbn. rewrite app_nil_r. exact Hacc.
  - cbn [fold_left concat]. rewrite app_assoc. apply IH.
    unfold f. rewrite (eval_Func2 ρ _ _ _ _ _ Hacc He). reflexivity.
Qed.

(** X17: array concatenation folds [list_concat] over the arguments from
    the left.  No argument at all is an error (Python's [reduce] raises),
    a single argument is returned untouched, and on arguments that are
    all arrays the result is their concatenation in argument order. *)
Theorem visit_ArrayConcat_concatenates
    (ρ : env) (arg : list expr) (lists : list (list value)) :
  visit_ArrayConcat [] = None
  /\ (forall a, visit_ArrayConcat [a] = Some a)
  /\ (arg <> [] ->
      Forall2 (fun e l => eval ρ e = Some (VList l)) arg lists ->
      exists e,
        visit_ArrayConcat arg = Some e
        /\ eval ρ e = Some (VList (concat lists))).
Proof.
  split; [reflexivity|]. split; [reflexivity|].
  intros Hne Hall. destruct Hall as [|a l rest lists Ha Hrest]; [congruence|].
  eexists. split; [reflexivity|].
  apply eval_fold_list_concat; assumption.
Qed.

Lemma visit_ArrayConcat_concatenates_witness :
  exists e,
    visit_ArrayConcat
      [Func "array" [Literal_number 1]; Func "array" [];
       Func "array" [Null; Literal_number 2]] = Some e
    /\ eval (fun _ => None) e =
       Some (VList (concat [[VInt 1]; []; [VNull; VInt 2]])).
Proof.
  apply (proj2 (proj2 (visit_ArrayConcat_concatenates (fun _ => None)
    [Func "array" [Literal_number 1]; Func "array" [];
     Func "array" [Null; Literal_number 2]]
    [[VInt 1]; []; [VNull; VInt 2]]))).
  - discriminate.
  - repeat constructor.
Defined.

(** ** Map membership and lookup *)

Lemma eval_element_at
    (ρ : env) (arg key : expr) (entries : list (value * value)) (k : value) :
  eval ρ arg = Some (VMap entries) ->
  eval ρ key = Some k ->
  is_null k = false ->
  eval ρ (Func "element_at" [arg; key]) = Some (VList (element_at entries k)).
Proof.
  intros Harg Hkey Hk. rewrite (eval_Func2 ρ _ _ _ _ _ Harg Hkey).
  change (call "element_at" [VMap entries; k])
    with (if is_null k then None else Some (VList (element_at entries k))).
  rewrite Hk. reflexivity.
Qed.

(** X18: the map-contains rule compares with 0 the length of the native
    lookup, and that length is 1 exactly when the key is present, whether
    or not the stored value is null, and 0 when it is absent.  So it
    tells a present null value from an absent key, which the map-get rule
    does not. *)
Theorem visit_MapContains_counts_presence
    (ρ : env) (arg key : expr) (entries : list (value * value)) (k : value) :
  eval ρ arg = Some (VMap entries) ->
  eval ρ key = Some k ->
  is_null k = false ->
  exists n,
    visit_MapContains arg key = NEQ n (Literal_number 0)
    /\ eval ρ n =
       Some (VInt match map_lookup k entries with
                  | Some _ => 1
                  | None => 0
                  end).
Proof.
  intros Harg Hkey Hk. exists (Func "len" [Func "element_at" [arg; key]]).
  split; [reflexivity|].
  rewrite (eval_len ρ _ _ (eval_element_at ρ arg key entries k Harg Hkey Hk)).
  unfold element_at. destruct (map_lookup k entries); reflexivity.
Qed.

Lemma visit_MapContains_counts_presence_witness :
  exists n,
    visit_MapContains (Column "m") (Literal_number 1) =
      NEQ n (Literal_number 0)
    /\ eval sample_map_env n = Some (VInt 1).
Proof.
  exact (visit_MapContains_counts_presence sample_map_env
    (Column "m") (Literal_number 1)
    [(VInt 1, VNull); (VInt 2, VInt 7)] (VInt 1)
    eq_refl eq_refl eq_refl).
Defined.

(** X19: with a non-null default the map-get rule never yields NULL;
    with a NULL default it is the plain lookup: the stored value for a
    present key, NULL for an absent one. *)
Theorem visit_MapGet_null_behaviour
    (ρ : env) (arg key fallback : expr)
    (entries : list (value * value)) (k d : value) :
  eval ρ arg = Some (VMap entries) ->
  eval ρ key = Some k ->
  is_null k = false ->
  eval ρ fallback = Some d ->
  exists v,
    eval ρ (visit_MapGet arg key fallback) = Some v
    /\ (is_null d = false -> is_null v = false)
    /\ (d = VNull -> v = default VNull (map_lookup k entries)).
Proof.
  intros Harg Hkey Hk Hd. eexists.
  split; [apply (eval_visit_MapGet ρ arg key fallback entries k d); assumption|].
  unfold element_at.
  destruct (map_lookup k entries) as [v|]; cbn.
  - change (default VNull ([v] !! Z.to_nat (1 - 1))) with v.
    destruct (is_null v) eqn:Hv; split; auto.
    intros ->. destruct v; cbn in Hv; congruence.
  - split; [auto|]. intros ->. reflexivity.
Qed.

Lemma visit_MapGet_null_behaviour_witness :
  exists v,
    eval sample_map_env
      (visit_MapGet (Column "m") (Literal_number 1) Null) = Some v
    /\ (is_null VNull = false -> is_null v = false)
    /\ (VNull = VNull ->
        v = default VNull (map_lookup (VInt 1) [(VInt 1, VNull); (VInt 2, VInt 7)])).
Proof.
  exact (visit_MapGet_null_behaviour sample_map_env
    (Column "m") (Literal_number 1) Null
    [(VInt 1, VNull); (VInt 2, VInt 7)] (VInt 1) VNull
    eq_refl eq_refl eq_refl eq_refl).
Defined.

(** ** More on index normalization *)

(** X20: the normalized index is never negative, never above the array
    length for a negative index, and normalizing twice is the same as
    normalizing once. *)
Theorem neg_idx_to_pos_range_and_idempotent
    (ρ : env) (array idx : expr) (xs : list value) (i : Z) :
  eval ρ array = Some (VList xs) ->
  eval ρ idx = Some (VInt i) ->
  exists n,
    eval ρ (_neg_idx_to_pos array idx) = Some (VInt n)
    /\ 0 <= n
    /\ (i < 0 -> n <= len xs)
    /\ eval ρ (_neg_idx_to_pos array (_neg_idx_to_pos array idx)) =
       Some (VInt n).
Proof.
  intros Harr Hidx. exists (normalized_index (len xs) i).
  pose proof (eval_neg_idx_to_pos ρ array idx xs i Harr Hidx) as Hn.
  pose proof (normalized_index_nonneg (len xs) i) as Hpos.
  split; [exact Hn|]. split; [exact Hpos|]. split.
  - apply normalized_index_le, len_nonneg.
  - rewrite (eval_neg_idx_to_pos ρ array _ xs _ Harr Hn).
    do 2 f_equal. unfold normalized_index at 1.
    replace (0 <=? normalized_index (len xs) i) with true by lia.
    reflexivity.
Qed.

Lemma neg_idx_to_pos_range_and_idempotent_witness :
  exists n,
    eval (fun _ => None)
      (_neg_idx_to_pos (Func "array" [Literal_number 10; Literal_number 20])
                       (Literal_number (-1))) = Some (VInt n)
    /\ 0 <= n
    /\ (-1 < 0 -> n <= len [VInt 10; VInt 20])
    /\ eval (fun _ => None)
         (_neg_idx_to_pos (Func "array" [Literal_number 10; Literal_number 20])
            (_neg_idx_to_pos
               (Func "array" [Literal_number 10; Literal_number 20])
               (Literal_number (-1)))) = Some (VInt n).
Proof.
  exact (neg_idx_to_pos_range_and_idempotent (fun _ => None)
    (Func "array" [Literal_number 10; Literal_number 20])
    (Literal_number (-1)) [VInt 10; VInt 20] (-1) eq_refl eq_refl).
Defined.

(** ** Aggregates *)

(** X21: the hand-written aggregate rules thread [where] the same way
    the generated ones do: with a predicate, the quantile and correlation
    rules give the filtered-aggregate wrapper around exactly what they
    give without one (and correlation fails alike in both cases).  The
    quantile function is [percentile_cont] for a numeric argument type
    and [percentile_disc] for any other. *)
Theorem aggregate_rules_thread_where
    (dialect : string) (op_arg_dtype lt rt : dt.DataType)
    (arg quantile left right w : expr) (how : string) :
  visit_Quantile op_arg_dtype arg quantile (Some w) =
    Filter (visit_Quantile op_arg_dtype arg quantile None) (Where w)
  /\ visit_Quantile op_arg_dtype arg quantile None =
       Func (if dt.is_numeric op_arg_dtype
             then "percentile_cont" else "percentile_disc")
            [arg; quantile]
  /\ visit_Correlation dialect lt rt left right how (Some w) =
       (let* bare := visit_Correlation dialect lt rt left right how None in
        Ok (Filter bare (Where w))).
Proof.
  split; [reflexivity|]. split.
  - unfold visit_Quantile. destruct (dt.is_numeric op_arg_dtype); reflexivity.
  - unfold visit_Correlation.
    destruct (how =? "sample")%string; reflexivity.
Qed.

(** ** Dispatch over the uniform-mapping table *)

Lemma simple_name_elem (k : ops.kind) (name : string)
    (table : list (ops.kind * string)) :
  simple_name k table = Some name -> (k, name) ∈ table.
Proof.
  induction table as [|[k' name'] table IH]; cbn; [discriminate|].
  case_bool_decide; subst.
  - intros [= ->]. left.
  - intros Hrest. right. apply IH, Hrest.
Qed.

(** X22: dispatch over the table never misses and never mixes the two
    shapes: every class of [_SIMPLE_OPS] has exactly one entry and one
    generated rule; the rule is a reduction rule, passing all its
    children and the predicate to [_aggregate], exactly when the class is
    a reduction, and otherwise a scalar rule calling the entry's function
    on all children. *)
Theorem simple_rule_total
    (issubclass_Reduction : ops.kind -> bool) (k : ops.kind) :
  exists name,
    (k, name) ∈ _SIMPLE_OPS
    /\ (forall name', (k, name') ∈ _SIMPLE_OPS -> name' = name)
    /\ match simple_rule issubclass_Reduction k with
       | Some (ReductionRule fmt) =>
           issubclass_Reduction k = true
           /\ forall kw where_, fmt kw where_ = _aggregate name kw where_
       | Some (ScalarRule fmt) =>
           issubclass_Reduction k = false
           /\ forall kw, fmt kw = Func name kw
       | None => False
       end.
Proof.
  assert (exists name, (k, name) ∈ _SIMPLE_OPS) as [name Hin].
  { destruct k; eexists; apply simple_name_elem; reflexivity. }
  exists name. split; [exact Hin|]. split.
  - intros name' Hin'.
    pose proof (simple_name_of_entry k name _ _SIMPLE_OPS_keys_NoDup Hin).
    pose proof (simple_name_of_entry k name' _ _SIMPLE_OPS_keys_NoDup Hin').
    congruence.
  - rewrite (simple_rule_of_entry issubclass_Reduction k name Hin).
    destruct (issubclass_Reduction k); split; reflexivity.
Qed.

(** ** How indexing and slicing compose *)

(** X23: cutting an array at any integer position [k] loses nothing: the
    slice up to [k] followed by the slice from [k] is the array itself,
    for negative and out-of-range [k] as well. *)
Theorem visit_ArraySlice_partition
    (ρ : env) (arg bound : expr) (xs : list value) (k : Z) :
  eval ρ arg = Some (VList xs) ->
  eval ρ bound = Some (VInt k) ->
  exists front back,
    eval ρ (visit_ArraySlice arg None (Some bound)) = Some (VList front)
    /\ eval ρ (visit_ArraySlice arg (Some bound) None) = Some (VList back)
    /\ (front ++ back)%list = xs.
Proof.
  intros Harg Hbound.
  eexists. eexists.
  split; [apply (eval_visit_ArraySlice ρ arg xs Harg None (Some bound)
                   None (Some k)); cbn [bound_is]; auto|].
  split; [apply (eval_visit_ArraySlice ρ arg xs Harg (Some bound) None
                   (Some k) None); cbn [bound_is]; auto|].
  cbn [slice_begin slice_end]. unfold len.
  set (n := normalized_index (Z.of_nat (length xs)) k).
  assert (0 <= n) as Hn by apply normalized_index_nonneg.
  rewrite Nat2Z.id, firstn_all.
  change (drop (Z.to_nat 0) (take (Z.to_nat n) xs))
    with (take (Z.to_nat n) xs).
  destruct (Z.le_gt_cases n (Z.of_nat (length xs))) as [Hle|Hgt].
  - rewrite Z.min_r by lia. apply take_drop.
  - rewrite Z.min_l by lia. rewrite Nat2Z.id.
    rewrite take_ge, drop_ge by lia. apply app_nil_r.
Qed.

Lemma visit_ArraySlice_partition_witness :
  exists front back,
    eval (fun _ => None)
      (visit_ArraySlice
         (Func "array" [Literal_number 10; Literal_number 20; Literal_number 30])
         None (Some (Literal_number (-1)))) = Some (VList front)
    /\ eval (fun _ => None)
         (visit_ArraySlice
            (Func "array" [Literal_number 10; Literal_number 20; Literal_number 30])
            (Some (Literal_number (-1))) None) = Some (VList back)
    /\ (front ++ back)%list = [VInt 10; VInt 20; VInt 30].
Proof.
  exact (visit_ArraySlice_partition (fun _ => None)
    (Func "array" [Literal_number 10; Literal_number 20; Literal_number 30])
    (Literal_number (-1)) [VInt 10; VInt 20; VInt 30] (-1)
    eq_refl eq_refl).
Defined.

Lemma take_drop_singleton (xs : list value) (p : nat) (x : value) :
  xs !! p = Some x -> drop p (take (S p) xs) = [x].
Proof.
  intros Hx. erewrite take_S_r by exact Hx.
  rewrite drop_app_length'; [reflexivity|].
  rewrite length_take. apply lookup_lt_Some in Hx. lia.
Qed.

(** X24: a one-element slice agrees with indexing.  For an index [i]
    inside the array, from the front or from the back, whose shift by one
    fits the index's integer type, the slice from [i] to [i + 1] holds
    exactly the element the index rule yields; the one exception is
    [i = -1], where the stop [0] is read as the front of the array and
    the slice is empty. *)
Theorem singleton_slice_is_index
    (ρ : env) (dtype : dt.DataType) (arg index stop : expr)
    (xs : list value) (i : Z) :
  dt.is_integer dtype = true ->
  eval ρ arg = Some (VList xs) ->
  eval ρ index = Some (VInt i) ->
  eval ρ stop = Some (VInt (i + 1)) ->
  dt.in_range dtype (if 0 <=? i then i + 1 else i) = true ->
  - len xs <= i < len xs ->
  exists x,
    eval ρ (visit_ArrayIndex dtype arg index) = Some x
    /\ eval ρ (visit_ArraySlice arg (Some index) (Some stop)) =
       Some (VList (if i =? -1 then [] else [x])).
Proof.
  intros Hty Harg Hidx Hstop Hfit Hrange. unfold len in Hrange.
  set (L := Z.of_nat (length xs)) in *.
  set (p := if 0 <=? i then i else L + i).
  assert (0 <= p < L) as Hp by (unfold p; destruct (Z.leb_spec 0 i); lia).
  destruct (lookup_lt_is_Some_2 xs (Z.to_nat p)) as [x Hx]; [lia|].
  exists x. split.
  - rewrite (eval_visit_ArrayIndex ρ dtype arg index xs i Hty Harg Hidx Hfit).
    f_equal. unfold list_extract, len. fold L. unfold p in Hx.
    destruct (Z.leb_spec 0 i) as [Hpos|Hneg].
    + replace (0 <? i + 1) with true by lia.
      replace (i + 1 - 1) with i by lia. rewrite Hx. reflexivity.
    + replace (0 <? i) with false by lia.
      replace (i <? 0) with true by lia.
      replace (0 <=? L + i) with true by lia. cbn [andb].
      rewrite Hx. reflexivity.
  - rewrite (eval_visit_ArraySlice ρ arg xs Harg (Some index)
               (Some stop) (Some i) (Some (i + 1)));
      [|exact Hidx|exact Hstop].
    do 2 f_equal. cbn [slice_begin slice_end]. unfold len. fold L.
    replace (Z.min L (normalized_index L i)) with p
      by (unfold p, normalized_index; destruct (Z.leb_spec 0 i); lia).
    destruct (Z.eqb_spec i (-1)) as [->|Hne].
    + change (normalized_index L (-1 + 1)) with 0.
      change (take (Z.to_nat 0) xs) with (@nil value). apply drop_nil.
    + replace (Z.to_nat (normalized_index L (i + 1))) with (S (Z.to_nat p))
        by (unfold p, normalized_index;
            destruct (Z.leb_spec 0 i), (Z.leb_spec 0 (i + 1)); lia).
      apply take_drop_singleton. exact Hx.
Qed.

Lemma singleton_slice_is_index_witness :
  exists x,
    eval (fun _ => None)
      (visit_ArrayIndex dt.int32
         (Func "array" [Literal_number 10; Literal_number 20; Literal_number 30])
         (Literal_number (-2))) = Some x
    /\ eval (fun _ => None)
         (visit_ArraySlice
            (Func "array" [Literal_number 10; Literal_number 20; Literal_number 30])
            (Some (Literal_number (-2)))
            (Some (Literal_number (-1)))) =
       Some (VList (if -2 =? -1 then [] else [x])).
Proof.
  apply (singleton_slice_is_index (fun _ => None) dt.int32
    (Func "array" [Literal_number 10; Literal_number 20; Literal_number 30])
    (Literal_number (-2)) (Literal_number (-1))
    [VInt 10; VInt 20; VInt 30] (-2));
    try reflexivity.
  vm_compute. split; [discriminate | reflexivity].
Defined.

(** X25: NULL goes through the index rule: an array with a NULL index, a
    NULL array with a NULL index, and a NULL array with an integer index
    whose shift by one fits the index's integer type, all yield NULL. *)
Theorem visit_ArrayIndex_null_propagation
    (ρ : env) (dtype : dt.DataType) (arg index : expr)
    (a i : value) :
  dt.is_integer dtype = true ->
  eval ρ arg = Some a ->
  eval ρ index = Some i ->
  (a = VNull
   /\ (i = VNull
       \/ exists n, i = VInt n
                    /\ dt.in_range dtype (if 0 <=? n then n + 1 else n) = true))
  \/ ((exists xs, a = VList xs) /\ i = VNull) ->
  eval ρ (visit_ArrayIndex dtype arg index) = Some VNull.
Proof.
  intros Hty Harg Hidx Hnull. unfold visit_ArrayIndex, f.
  destruct Hnull as [[-> [-> | (n & -> & Hfit)]] | [[xs ->] ->]].
  - cbn [eval map sequence cast]. rewrite Harg, Hidx. cbn. reflexivity.
  - rewrite (eval_Func2 ρ _ _ _ _ _ Harg
               (eval_ArrayIndex_position ρ dtype index n Hty Hidx Hfit)).
    reflexivity.
  - cbn [eval map sequence cast]. rewrite Harg, Hidx. cbn. reflexivity.
Qed.

Lemma visit_ArrayIndex_null_propagation_witness :
  eval (fun _ => None)
    (visit_ArrayIndex dt.int32
       (Func "array" [Literal_number 10; Literal_number 20]) Null) =
  Some VNull
  /\ eval (fun _ => None)
       (visit_ArrayIndex dt.int32 Null (Literal_number 5)) = Some VNull.
Proof.
  split.
  - apply (visit_ArrayIndex_null_propagation (fun _ => None) dt.int32
      (Func "array" [Literal_number 10; Literal_number 20]) Null
      (VList [VInt 10; VInt 20]) VNull); try reflexivity.
    right. split; [eexists|]; reflexivity.
  - apply (visit_ArrayIndex_null_propagation (fun _ => None) dt.int32
      Null (Literal_number 5) VNull (VInt 5)); try reflexivity.
    left. split; [reflexivity|]. right. exists 5. split; reflexivity.
Defined.
